(** * The upload driver of the photos web/desktop client

    A shallow embedding of the [Uploader] component
    (src/src/api/electronStore.ts, second document: the React component that
    drives the upload pipeline) and proofs of the properties the
    specification states about it.

    The component is a set of event handlers over a handful of React
    states and refs, calling out to collaborators that live elsewhere:
    the upload manager, the import service of the desktop shell, the remote
    collection service and the callbacks the gallery page passes as props.
    The handlers are embedded as computations over an explicit state, in a
    monad with exceptions ([try]/[catch]/[finally]) that also records every
    call made to a collaborator. *)

From Stdlib Require Import Ascii String List Bool Arith ZArith Lia.
Import ListNotations.
Open Scope string_scope.
Open Scope list_scope.

Set Implicit Arguments.

(** ** JavaScript values used by the component *)

(** A thrown [Error]; the handlers only ever read its [message]. *)
Record JsError := mkError { message : string }.

(** The [TypeError] raised when [.map] or [.length] is applied to [null]. *)
Definition TypeError_null : JsError :=
  mkError "Cannot read properties of null".

(** JavaScript truthiness of a [string | null | undefined] value. *)
Definition truthy (s : option string) : bool :=
  match s with
  | Some s => negb (String.eqb s "")
  | None => false
  end.

(** [xs?.length > 0] for an array that may be [null] or [undefined]. *)
Definition nonEmpty {A} (xs : option (list A)) : bool :=
  match xs with
  | Some (_ :: _) => true
  | _ => false
  end.

(** ** [Map]: keys are unique and iteration follows insertion order *)

Module JsMap.
Section Defs.
Context {K V : Type} (K_eq_dec : forall x y : K, {x = y} + {x <> y}).

Fixpoint set_entries (k : K) (v : V) (l : list (K * V)) : list (K * V) :=
  match l with
  | [] => [(k, v)]
  | (k', v') :: rest =>
      if K_eq_dec k k' then (k, v) :: rest
      else (k', v') :: set_entries k v rest
  end.

Lemma set_entries_keys_in k v l x :
  In x (map fst (set_entries k v l)) -> x = k \/ In x (map fst l).
Proof.
  induction l as [|[k' v'] rest IH]; simpl.
  - intros [<-|[]]; now left.
  - destruct (K_eq_dec k k') as [->|Hne]; simpl.
    + intros [<-|Hin]; [now left | right; now right].
    + intros [<-|Hin]; [right; now left |].
      destruct (IH Hin) as [->|Hin']; [now left | right; now right].
Qed.

Lemma set_entries_NoDup k v l :
  NoDup (map fst l) -> NoDup (map fst (set_entries k v l)).
Proof.
  induction l as [|[k' v'] rest IH]; simpl; intros Hnd.
  - constructor; [intros [] | constructor].
  - inversion Hnd as [|? ? Hnotin Hrest]; subst.
    destruct (K_eq_dec k k') as [->|Hne]; simpl.
    + now constructor.
    + constructor; [|now apply IH].
      intros Hin. destruct (set_entries_keys_in _ _ _ _ Hin) as [Heq|Hin'].
      * now apply Hne.
      * now apply Hnotin.
Qed.
End Defs.

(** A [Map] is its entry list in insertion order, with distinct keys. *)
Record t (K V : Type) : Type := mk {
  entries : list (K * V);
  keys_NoDup : NoDup (map fst entries)
}.

Definition keys {K V} (m : t K V) : list K := map fst (entries m).

Definition empty {K V} : t K V := mk (@nil (K * V)) (NoDup_nil K).

Definition set {K V} (K_eq_dec : forall x y : K, {x = y} + {x <> y})
    (k : K) (v : V) (m : t K V) : t K V :=
  mk (set_entries K_eq_dec k v (entries m))
     (set_entries_NoDup K_eq_dec k v (entries m) (keys_NoDup m)).

Fixpoint get_entries {K V} (K_eq_dec : forall x y : K, {x = y} + {x <> y})
    (k : K) (l : list (K * V)) : option V :=
  match l with
  | [] => None
  | (k', v) :: rest =>
      if K_eq_dec k k' then Some v else get_entries K_eq_dec k rest
  end.

Definition get {K V} (K_eq_dec : forall x y : K, {x = y} + {x <> y})
    (k : K) (m : t K V) : option V :=
  get_entries K_eq_dec k (entries m).

(** Re-tagging keys and values, as when a [Map<string, File[]>] is used
    where keys and values may also be [undefined] or [null]. *)
Lemma NoDup_map_inj {A B} (f : A -> B) (l : list A) :
  (forall x y, f x = f y -> x = y) -> NoDup l -> NoDup (map f l).
Proof.
  intros Hinj. induction 1 as [|a l Hnotin Hnd IH]; simpl; constructor; auto.
  intros Hin. apply in_map_iff in Hin as [y [Heq Hy]].
  apply Hinj in Heq. now subst.
Qed.

Lemma nullable_keys_NoDup {K V W} (g : V -> W) (l : list (K * V)) :
  NoDup (map fst l) ->
  NoDup (map fst (map (fun kv => (Some (fst kv), g (snd kv))) l)).
Proof.
  intros Hnd. rewrite map_map. simpl.
  rewrite <- (map_map fst Some).
  apply NoDup_map_inj; [now intros x y [=] | exact Hnd].
Qed.

Definition nullable {K V} (m : t K V) : t (option K) (option V) :=
  mk (map (fun kv => (Some (fst kv), Some (snd kv))) (entries m))
     (nullable_keys_NoDup (@Some V) (entries m) (keys_NoDup m)).
End JsMap.

Definition name_eq_dec (x y : option string) : {x = y} + {x <> y}.
Proof. decide equality. apply string_dec. Defined.

(** ** Data model (types/upload, types/collection, constants/upload) *)

(** [File | ElectronFile]: only the desktop shell's files carry a [path]. *)
Record AnyFile := mkFile { file_name : string; file_path : option string }.

Definition AnyFile_eq_dec (x y : AnyFile) : {x = y} + {x <> y}.
Proof. decide equality; [apply name_eq_dec | apply string_dec]. Defined.

Definition files_eq_dec (x y : option (list AnyFile)) : {x = y} + {x <> y}.
Proof. decide equality. apply list_eq_dec, AnyFile_eq_dec. Defined.

(** A remote album; the component reads nothing but its [id]. *)
Record Collection := mkCollection {
  collection_id : Z;
  collection_name : string
}.

Record FileWithCollection := mkFileWithCollection {
  file : AnyFile;
  localID : nat;
  collectionID : Z
}.

Record ImportSuggestion := mkImportSuggestion {
  rootFolderName : option string;
  hasNestedFolders : bool
}.

Inductive UPLOAD_TYPE := FILES | FOLDERS | ZIPS.
Inductive UPLOAD_STRATEGY := SINGLE_COLLECTION | COLLECTION_PER_FOLDER.

Definition UPLOAD_TYPE_eqb (a b : UPLOAD_TYPE) : bool :=
  match a, b with
  | FILES, FILES | FOLDERS, FOLDERS | ZIPS, ZIPS => true
  | _, _ => false
  end.

(** [uploadType.current === t] for a ref that starts out [null]. *)
Definition uploadType_is (cur : option UPLOAD_TYPE) (t : UPLOAD_TYPE) : bool :=
  match cur with
  | Some t' => UPLOAD_TYPE_eqb t' t
  | None => false
  end.

Definition FIRST_ALBUM_NAME : string := "My First Album".

(** What [ImportService.getPendingUploads] resolves to. *)
Record PendingUploads := mkPendingUploads {
  pending_files : option (list AnyFile);
  pending_collectionName : option string;
  pending_type : option UPLOAD_TYPE
}.

(** What [ImportService.showUploadZipDialog] resolves to. *)
Record ZipDialogResponse := mkZipDialogResponse {
  response_files : option (list AnyFile);
  response_zipPaths : option (list string)
}.

(** The entries of the localisation table (utils/strings/constants) that
    the component shows; the table itself is not part of the sources, so
    each entry is a symbol. *)
Module constants.
Inductive t :=
  | ERROR | CREATE_ALBUM_FAILED
  | CANVAS_BLOCKED_TITLE | CANVAS_BLOCKED_MESSAGE | CLOSE | DOWNLOAD
  | SUBSCRIPTION_EXPIRED | UPGRADE_NOW
  | STORAGE_QUOTA_EXCEEDED | RENEW_NOW
  | UNKNOWN_ERROR
  | CREATE_COLLECTION | CREATE | UPLOAD_TO_COLLECTION.
End constants.

(** Functions the component hands over as callbacks. *)
Inductive Callback :=
  | downloadApp
  | showPlanSelectorModal
  | cb_uploadFilesToExistingCollection
  | cb_uploadToSingleNewCollection.

Inductive Icon := DiscFullIcon.

Record NotificationAction := mkAction {
  action_text : constants.t;
  action_callback : Callback
}.

Record NotificationAttributes := mkNotification {
  variant : string;
  notification_message : constants.t;
  action : option NotificationAction;
  icon : option Icon
}.

(** A button of a dialog: [{ text, action, variant }], each optional. *)
Record DialogButton := mkButton {
  button_text : option constants.t;
  button_action : option Callback;
  button_variant : option string
}.

(** What [appContext.setDialogMessage] is given. *)
Record DialogMessage := mkDialog {
  dialog_title : constants.t;
  dialog_content : constants.t;
  dialog_close : DialogButton;
  dialog_proceed : option DialogButton
}.

(** The dialog of lines 178-188. *)
Definition CanvasBlockedDialog : DialogMessage :=
  mkDialog constants.CANVAS_BLOCKED_TITLE constants.CANVAS_BLOCKED_MESSAGE
    (mkButton (Some constants.CLOSE) None None)
    (Some (mkButton (Some constants.DOWNLOAD) (Some downloadApp)
             (Some "accent"))).

(** The dialog of lines 292-297. *)
Definition CreateAlbumFailedDialog : DialogMessage :=
  mkDialog constants.ERROR constants.CREATE_ALBUM_FAILED
    (mkButton None None (Some "danger")) None.

(** The closure [showNextModal] that [handleCollectionCreationAndUpload]
    hands to the collection selector, as data: it either opens the strategy
    choice modal or uploads to a single new collection under the suggested
    name. *)
Inductive NextModal :=
  | OpenChoiceModal
  | UploadToSingleNewCollection (rootFolderName : option string).

Record CollectionSelectorAttributes := mkSelectorAttributes {
  selector_callback : Callback;
  showNextModal : NextModal;
  selector_title : constants.t
}.

Record CollectionNamerAttributes := mkNamerAttributes {
  namer_title : constants.t;
  buttonText : constants.t;
  autoFilledName : option string;
  namer_callback : Callback
}.

(** ** Calls to collaborators

    Every call that leaves the component is recorded, in order. *)
Inductive Event :=
  (* props *)
  | CloseCollectionSelector
  | CloseUploadTypeSelector
  | SetCollectionSelectorAttributes (a : CollectionSelectorAttributes)
  | SetCollectionNamerAttributes (a : CollectionNamerAttributes)
  | SetLoading (b : bool)
  | SetUploadInProgress (b : bool)
  | SyncWithRemote (force silent : option bool)
  | ShowSessionExpiredMessage
  | ShowUploadFilesDialog
  | ShowUploadDirsDialog
  (* contexts *)
  | SetDialogMessage (d : DialogMessage)
  | ResetSharedFiles
  | SetNotificationAttributes (n : NotificationAttributes)
  (* uploadManager *)
  | UploadManagerInit
  | PrepareForNewUpload
  | QueueFilesForUpload (items : list FileWithCollection)
                        (collections : list Collection)
  | RetryFailedFiles
  (* ImportService *)
  | GetPendingUploads
  | SetToUploadCollection (collections : list Collection)
  | SetToUploadFiles (type : UPLOAD_TYPE) (paths : list (option string))
  | ImportShowUploadFilesDialog
  | ImportShowUploadDirsDialog
  | ImportShowUploadZipDialog
  | CancelRemainingUploads
  (* collectionService *)
  | SyncCollections
  | CreateAlbum (collectionName : option string) (existing : list Collection)
  (* logging and routing *)
  | LogError (e : JsError) (context : string)
  | RouterReload.

(** ** Outcome of a call *)

Inductive Res (A : Type) :=
  | Ok (a : A)
  | Throw (e : JsError).
Arguments Ok {A} a.
Arguments Throw {A} e.

(** ** The collaborators, as interfaces over the state [W] of everything
    outside the component (the upload manager singleton, the shell's store,
    the server). An awaited call either resolves or rejects. *)

Class ImportEnv (W : Type) := {
  isElectron : bool;
  checkAllElectronAPIsExists : bool;
  isCanvasBlocked : bool;
  (* props.syncWithRemote *)
  syncWithRemote : option bool -> option bool -> W -> Res unit * W;
  (* services/collectionService *)
  syncCollections : W -> Res (list Collection) * W;
  createAlbum : option string -> list Collection -> W -> Res Collection * W;
  (* services/importService *)
  getPendingUploads : W -> Res PendingUploads * W;
  setToUploadCollection : list Collection -> W -> Res unit * W;
  setToUploadFiles : UPLOAD_TYPE -> list (option string) -> W -> Res unit * W;
  cancelRemainingUploads : W -> Res unit * W;
  showUploadFilesDialog : W -> Res (option (list AnyFile)) * W;
  showUploadDirsDialog : W -> Res (option (list AnyFile)) * W;
  showUploadZipDialog : W -> Res ZipDialogResponse * W;
  (* utils/ui *)
  getDownloadAppMessage : DialogMessage;
  (* utils/upload *)
  getImportSuggestion :
    option UPLOAD_TYPE -> option (list AnyFile) -> ImportSuggestion;
  groupFilesBasedOnParentFolder :
    option (list AnyFile) -> Res (JsMap.t string (list AnyFile))
}.

Class UploadManagerOps (W : Type) := {
  prepareForNewUpload : W -> Res unit * W;
  queueFilesForUpload :
    list FileWithCollection -> list Collection -> W -> Res unit * W;
  retryFailedFiles : W -> Res unit * W
}.

(** [Router.reload()] reloads the page the component lives in. *)
Class Browser (W : Type) := {
  reload : W -> W
}.

(** ** State

    The React states and refs of the component ([useState], [useRef]),
    the props and context values it reads, and the outside world. A state
    setter is modelled as an assignment; a closure sees what was set from
    the next render on, so an effect that runs in the same commit as the
    setter is given the state that was rendered (see
    [filesArrivedEffect_of] and [firstCommit]). *)
Record St (W : Type) := mkSt {
  (* useState *)
  uploadProgressView : bool;
  choiceModalView : bool;
  importSuggestion : ImportSuggestion;
  electronFiles : option (list AnyFile);
  webFiles : option (list AnyFile);
  (* useRef *)
  toUploadFiles : option (list AnyFile);
  isPendingDesktopUpload : bool;
  pendingDesktopUploadCollectionName : option string;
  uploadType : option UPLOAD_TYPE;
  zipPaths : option (list string);
  (* props and appContext *)
  uploadInProgress : bool;
  isFirstUpload : bool;
  sharedFiles : option (list AnyFile);
  folderSelectorFiles : option (list AnyFile);
  fileSelectorFiles : option (list AnyFile);
  dragAndDropFiles : option (list AnyFile);
  (* everything else *)
  world : W
}.

Section State.
Context {W : Type}.
Implicit Type s : St W.

Definition setUploadProgressView_ (b : bool) s : St W :=
  mkSt b (choiceModalView s) (importSuggestion s) (electronFiles s)
    (webFiles s) (toUploadFiles s) (isPendingDesktopUpload s)
    (pendingDesktopUploadCollectionName s) (uploadType s) (zipPaths s)
    (uploadInProgress s) (isFirstUpload s) (sharedFiles s)
    (folderSelectorFiles s) (fileSelectorFiles s) (dragAndDropFiles s)
    (world s).

Definition setChoiceModalView_ (b : bool) s : St W :=
  mkSt (uploadProgressView s) b (importSuggestion s) (electronFiles s)
    (webFiles s) (toUploadFiles s) (isPendingDesktopUpload s)
    (pendingDesktopUploadCollectionName s) (uploadType s) (zipPaths s)
    (uploadInProgress s) (isFirstUpload s) (sharedFiles s)
    (folderSelectorFiles s) (fileSelectorFiles s) (dragAndDropFiles s)
    (world s).

Definition setImportSuggestion_ (i : ImportSuggestion) s : St W :=
  mkSt (uploadProgressView s) (choiceModalView s) i (electronFiles s)
    (webFiles s) (toUploadFiles s) (isPendingDesktopUpload s)
    (pendingDesktopUploadCollectionName s) (uploadType s) (zipPaths s)
    (uploadInProgress s) (isFirstUpload s) (sharedFiles s)
    (folderSelectorFiles s) (fileSelectorFiles s) (dragAndDropFiles s)
    (world s).

Definition setElectronFiles_ (fs : option (list AnyFile)) s : St W :=
  mkSt (uploadProgressView s) (choiceModalView s) (importSuggestion s) fs
    (webFiles s) (toUploadFiles s) (isPendingDesktopUpload s)
    (pendingDesktopUploadCollectionName s) (uploadType s) (zipPaths s)
    (uploadInProgress s) (isFirstUpload s) (sharedFiles s)
    (folderSelectorFiles s) (fileSelectorFiles s) (dragAndDropFiles s)
    (world s).

Definition setWebFiles_ (fs : option (list AnyFile)) s : St W :=
  mkSt (uploadProgressView s) (choiceModalView s) (importSuggestion s)
    (electronFiles s) fs (toUploadFiles s) (isPendingDesktopUpload s)
    (pendingDesktopUploadCollectionName s) (uploadType s) (zipPaths s)
    (uploadInProgress s) (isFirstUpload s) (sharedFiles s)
    (folderSelectorFiles s) (fileSelectorFiles s) (dragAndDropFiles s)
    (world s).

Definition set_toUploadFiles (fs : option (list AnyFile)) s : St W :=
  mkSt (uploadProgressView s) (choiceModalView s) (importSuggestion s)
    (electronFiles s) (webFiles s) fs (isPendingDesktopUpload s)
    (pendingDesktopUploadCollectionName s) (uploadType s) (zipPaths s)
    (uploadInProgress s) (isFirstUpload s) (sharedFiles s)
    (folderSelectorFiles s) (fileSelectorFiles s) (dragAndDropFiles s)
    (world s).

Definition set_isPendingDesktopUpload (b : bool) s : St W :=
  mkSt (uploadProgressView s) (choiceModalView s) (importSuggestion s)
    (electronFiles s) (webFiles s) (toUploadFiles s) b
    (pendingDesktopUploadCollectionName s) (uploadType s) (zipPaths s)
    (uploadInProgress s) (isFirstUpload s) (sharedFiles s)
    (folderSelectorFiles s) (fileSelectorFiles s) (dragAndDropFiles s)
    (world s).

Definition set_pendingDesktopUploadCollectionName (n : option string) s
    : St W :=
  mkSt (uploadProgressView s) (choiceModalView s) (importSuggestion s)
    (electronFiles s) (webFiles s) (toUploadFiles s)
    (isPendingDesktopUpload s) n (uploadType s) (zipPaths s)
    (uploadInProgress s) (isFirstUpload s) (sharedFiles s)
    (folderSelectorFiles s) (fileSelectorFiles s) (dragAndDropFiles s)
    (world s).

Definition set_uploadType (t : option UPLOAD_TYPE) s : St W :=
  mkSt (uploadProgressView s) (choiceModalView s) (importSuggestion s)
    (electronFiles s) (webFiles s) (toUploadFiles s)
    (isPendingDesktopUpload s) (pendingDesktopUploadCollectionName s) t
    (zipPaths s) (uploadInProgress s) (isFirstUpload s) (sharedFiles s)
    (folderSelectorFiles s) (fileSelectorFiles s) (dragAndDropFiles s)
    (world s).

Definition set_zipPaths (z : option (list string)) s : St W :=
  mkSt (uploadProgressView s) (choiceModalView s) (importSuggestion s)
    (electronFiles s) (webFiles s) (toUploadFiles s)
    (isPendingDesktopUpload s) (pendingDesktopUploadCollectionName s)
    (uploadType s) z (uploadInProgress s) (isFirstUpload s) (sharedFiles s)
    (folderSelectorFiles s) (fileSelectorFiles s) (dragAndDropFiles s)
    (world s).

Definition set_uploadInProgress (b : bool) s : St W :=
  mkSt (uploadProgressView s) (choiceModalView s) (importSuggestion s)
    (electronFiles s) (webFiles s) (toUploadFiles s)
    (isPendingDesktopUpload s) (pendingDesktopUploadCollectionName s)
    (uploadType s) (zipPaths s) b (isFirstUpload s) (sharedFiles s)
    (folderSelectorFiles s) (fileSelectorFiles s) (dragAndDropFiles s)
    (world s).

Definition set_sharedFiles (fs : option (list AnyFile)) s : St W :=
  mkSt (uploadProgressView s) (choiceModalView s) (importSuggestion s)
    (electronFiles s) (webFiles s) (toUploadFiles s)
    (isPendingDesktopUpload s) (pendingDesktopUploadCollectionName s)
    (uploadType s) (zipPaths s) (uploadInProgress s) (isFirstUpload s) fs
    (folderSelectorFiles s) (fileSelectorFiles s) (dragAndDropFiles s)
    (world s).

Definition set_world (w : W) s : St W :=
  mkSt (uploadProgressView s) (choiceModalView s) (importSuggestion s)
    (electronFiles s) (webFiles s) (toUploadFiles s)
    (isPendingDesktopUpload s) (pendingDesktopUploadCollectionName s)
    (uploadType s) (zipPaths s) (uploadInProgress s) (isFirstUpload s)
    (sharedFiles s) (folderSelectorFiles s) (fileSelectorFiles s)
    (dragAndDropFiles s) w.

(** ** The monad of handlers: state, recorded calls and exceptions *)

Record Run (A : Type) := mkRun {
  events : list Event;
  final : St W;
  result : Res A
}.

Definition M (A : Type) : Type := St W -> Run A.

Definition ret {A} (a : A) : M A := fun s => mkRun [] s (Ok a).

Definition throw {A} (e : JsError) : M A := fun s => mkRun [] s (Throw e).

Definition bind {A B} (c : M A) (k : A -> M B) : M B := fun s =>
  let r := c s in
  match result r with
  | Ok a => let r' := k a (final r) in
            mkRun (events r ++ events r') (final r') (result r')
  | Throw e => mkRun (events r) (final r) (Throw e)
  end.

(** [try { c } catch (e) { h e }] *)
Definition try_catch {A} (c : M A) (h : JsError -> M A) : M A := fun s =>
  let r := c s in
  match result r with
  | Ok a => r
  | Throw e => let r' := h e (final r) in
               mkRun (events r ++ events r') (final r') (result r')
  end.

(** [try { c } finally { f }]: [f] runs however [c] ends; the outcome is
    that of [c] unless [f] itself throws. *)
Definition try_finally {A} (c : M A) (f : M unit) : M A := fun s =>
  let r := c s in
  let r' := f (final r) in
  mkRun (events r ++ events r') (final r')
    match result r' with
    | Ok _ => result r
    | Throw e => Throw e
    end.

(** A call that is not awaited and that its caller does not outlive: the
    last statement of a handler, or a call to a collaborator whose own
    course is not the component's. Its body runs, and a rejection of the
    promise it returns reaches nobody. *)
Definition unawaited {A} (c : M A) : M unit := fun s =>
  let r := c s in mkRun (events r) (final r) (Ok tt).

(** The outcome of a call as a value: what an [await] of its promise
    delivers, or what [.then] hands on. *)
Definition settled {A} (c : M A) : M (Res A) := fun s =>
  let r := c s in mkRun (events r) (final r) (Ok (result r)).

(** What is left to run of an [async] function (or of a [.then] callback)
    that has been started and waits for a promise. *)
Definition Job : Type := M unit.

(** [start first rest]: an [async] function is called and not awaited
    while its caller has more to do. The function runs up to its first
    [await], the call [first], which is made at once; there it stops, and
    [rest], what it does with the outcome, waits until the caller's own
    code is through. The same for [first.then(rest)]. *)
Definition start {A} (first : M A) (rest : Res A -> M unit)
    : M (list Job) :=
  bind (settled first) (fun outcome => ret [rest outcome]).

(** The waiting jobs run, in the order they were left; what one throws
    rejects a promise that nobody holds. *)
Fixpoint settle (jobs : list Job) : M unit :=
  match jobs with
  | [] => ret tt
  | job :: waiting => bind (unawaited job) (fun _ => settle waiting)
  end.

(** A handler called from outside the component, and then what it has
    left waiting. *)
Definition task (handler : M (list Job)) : M unit := bind handler settle.

Definition emit (e : Event) : M unit := fun s => mkRun [e] s (Ok tt).

Definition gets {A} (f : St W -> A) : M A := fun s => mkRun [] s (Ok (f s)).

Definition modify (f : St W -> St W) : M unit := fun s =>
  mkRun [] (f s) (Ok tt).

(** A call to a collaborator: recorded, then answered by the world. *)
Definition call {A} (e : Event) (op : W -> Res A * W) : M A := fun s =>
  let (r, w) := op (world s) in mkRun [e] (set_world w s) r.

(** The outcome of a synchronous helper, returned or thrown on. *)
Definition lift {A} (r : Res A) : M A :=
  match r with
  | Ok a => ret a
  | Throw e => throw e
  end.

(** [xs.map(...)], [xs.length] on an array that must not be [null]. *)
Definition deref {A} (xs : option A) : M A :=
  match xs with
  | Some x => ret x
  | None => throw TypeError_null
  end.

End State.

Declare Scope handler_scope.
Delimit Scope handler_scope with handler.
Notation "x <- c ;; k" := (bind c (fun x => k))
  (at level 61, c at next level, right associativity) : handler_scope.
Notation "c ;; k" := (bind c (fun _ => k))
  (at level 61, right associativity) : handler_scope.
Open Scope handler_scope.

(** The members of the [CustomError] enum (utils/error) that
    [showUserFacingError] switches on. The enum's declaration is not part
    of the sources, so the three strings are parameters. *)
Module CustomError.
Class t := {
  SESSION_EXPIRED : string;
  SUBSCRIPTION_EXPIRED : string;
  STORAGE_QUOTA_EXCEEDED : string
}.
End CustomError.

(** [xs.map((x, index) => f x index)], and the same with a running
    counter that starts at [start] ([index++] in the callback). *)
Fixpoint map_indexed {A B} (f : A -> nat -> B) (start : nat) (l : list A)
    : list B :=
  match l with
  | [] => []
  | x :: rest => f x start :: map_indexed f (S start) rest
  end.

(** ** The component *)

Section Uploader.
Context {W : Type} {env : ImportEnv W} {uploadManager : UploadManagerOps W}
        {browser : Browser W} {customError : CustomError.t}.

Local Abbreviation M := (@M W).
Local Abbreviation Job := (@Job W).

Definition logError (e : JsError) (context : string) : M unit :=
  emit (LogError e context).

Definition closeUploadProgress : M unit :=
  modify (setUploadProgressView_ false).

Definition props_setUploadInProgress (value : bool) : M unit :=
  emit (SetUploadInProgress value) ;;
  modify (set_uploadInProgress value).

(** Lines 218-229. *)
Definition resumeDesktopUpload (type : option UPLOAD_TYPE)
    (electronFiles : option (list AnyFile)) (collectionName : option string)
    : M unit :=
  if nonEmpty electronFiles then
    modify (set_isPendingDesktopUpload true) ;;
    modify (set_pendingDesktopUploadCollectionName collectionName) ;;
    modify (set_uploadType type) ;;
    modify (setElectronFiles_ electronFiles)
  else ret tt.

(** Lines 366-399. The [switch] compares with [===], first match wins. *)
Definition showUserFacingError (err : string) : M unit :=
  if String.eqb err CustomError.SESSION_EXPIRED then
    emit ShowSessionExpiredMessage
  else
    let notification :=
      if String.eqb err CustomError.SUBSCRIPTION_EXPIRED then
        mkNotification "danger" constants.SUBSCRIPTION_EXPIRED
          (Some (mkAction constants.UPGRADE_NOW showPlanSelectorModal)) None
      else if String.eqb err CustomError.STORAGE_QUOTA_EXCEEDED then
        mkNotification "danger" constants.STORAGE_QUOTA_EXCEEDED
          (Some (mkAction constants.RENEW_NOW showPlanSelectorModal))
          (Some DiscFullIcon)
      else
        mkNotification "danger" constants.UNKNOWN_ERROR None None in
    emit (SetNotificationAttributes notification).

(** Lines 306-313. *)
Definition preUploadAction : M unit :=
  emit CloseCollectionSelector ;;
  emit CloseUploadTypeSelector ;;
  call PrepareForNewUpload prepareForNewUpload ;;
  modify (setUploadProgressView_ true) ;;
  props_setUploadInProgress true ;;
  call (SyncWithRemote (Some true) (Some true))
       (syncWithRemote (Some true) (Some true)).

(** Lines 315-318; the sync is started and not awaited. *)
Definition postUploadAction : M unit :=
  props_setUploadInProgress false ;;
  unawaited (call (SyncWithRemote None None) (syncWithRemote None None)).

(** The [try] block of [uploadFiles], lines 325-344. *)
Definition uploadFiles_try (filesWithCollectionToUploadIn :
    list FileWithCollection) (collections : list Collection) : M unit :=
  pending <- gets (@isPendingDesktopUpload W) ;;
  (if isElectron && negb pending then
     call (SetToUploadCollection collections)
          (setToUploadCollection collections) ;;
     zips <- gets (@zipPaths W) ;;
     match zips with
     | Some paths =>
         call (SetToUploadFiles ZIPS (map Some paths))
              (setToUploadFiles ZIPS (map Some paths)) ;;
         modify (set_zipPaths None)
     | None => ret tt
     end ;;
     let paths :=
       map (fun item => file_path (file item)) filesWithCollectionToUploadIn in
     call (SetToUploadFiles FILES paths) (setToUploadFiles FILES paths)
   else ret tt) ;;
  call (QueueFilesForUpload filesWithCollectionToUploadIn collections)
       (queueFilesForUpload filesWithCollectionToUploadIn collections).

(** Lines 320-352. *)
Definition uploadFiles (filesWithCollectionToUploadIn :
    list FileWithCollection) (collections : list Collection) : M unit :=
  try_finally
    (try_catch
       (uploadFiles_try filesWithCollectionToUploadIn collections)
       (fun err =>
          showUserFacingError (message err) ;;
          closeUploadProgress ;;
          throw err))
    postUploadAction.

(** The [try] block of [retryFailed], lines 356-357. *)
Definition retryFailed_try : M unit :=
  preUploadAction ;;
  call RetryFailedFiles retryFailedFiles.

(** Lines 354-364. *)
Definition retryFailed : M unit :=
  try_finally
    (try_catch retryFailed_try
       (fun err =>
          showUserFacingError (message err) ;;
          closeUploadProgress))
    postUploadAction.

(** The batch of lines 234-239. *)
Definition existingCollectionBatch (files : list AnyFile)
    (collection : Collection) : list FileWithCollection :=
  map_indexed
    (fun file index =>
       mkFileWithCollection file index (collection_id collection))
    0 files.

(** Lines 231-244. *)
Definition uploadFilesToExistingCollection (collection : Collection)
    : M unit :=
  try_catch
    (preUploadAction ;;
     current <- gets (@toUploadFiles W) ;;
     files <- deref current ;;
     uploadFiles (existingCollectionBatch files collection) [collection])
    (fun e => logError e "Failed to upload files to existing collections").

(** The map of lines 254-267. *)
Definition collectionNameToFilesMap (strategy : UPLOAD_STRATEGY)
    (collectionName : option string) (current : option (list AnyFile))
    : Res (JsMap.t (option string) (option (list AnyFile))) :=
  match strategy with
  | SINGLE_COLLECTION =>
      Ok (JsMap.set name_eq_dec collectionName current JsMap.empty)
  | COLLECTION_PER_FOLDER =>
      match groupFilesBasedOnParentFolder current with
      | Ok m => Ok (JsMap.nullable m)
      | Throw e => Throw e
      end
  end.

(** The [for ... of] loop of lines 271-288, over the entries that are
    left, with the running [index] and the two arrays built so far. *)
Fixpoint createAlbums (existingCollection : list Collection)
    (entries : list (option string * option (list AnyFile)))
    (index : nat)
    (filesWithCollectionToUpload : list FileWithCollection)
    (collections : list Collection)
    : M (list FileWithCollection * list Collection) :=
  match entries with
  | [] => ret (filesWithCollectionToUpload, collections)
  | (collectionName, files) :: rest =>
      collection <- call (CreateAlbum collectionName existingCollection)
                         (createAlbum collectionName existingCollection) ;;
      let collections := collections ++ [collection] in
      files <- deref files ;;
      let filesWithCollectionToUpload :=
        filesWithCollectionToUpload ++
        map_indexed
          (fun file index =>
             mkFileWithCollection file index (collection_id collection))
          index files in
      createAlbums existingCollection rest (index + length files)
        filesWithCollectionToUpload collections
  end.

(** The inner [try] block, lines 269-288: the grouping pass. *)
Definition groupingPass
    (map : JsMap.t (option string) (option (list AnyFile)))
    : M (list FileWithCollection * list Collection) :=
  existingCollection <- call SyncCollections syncCollections ;;
  createAlbums existingCollection (JsMap.entries map) 0 [] [].

(** The inner [try]/[catch], lines 268-299. *)
Definition guardedGroupingPass
    (map : JsMap.t (option string) (option (list AnyFile)))
    : M (list FileWithCollection * list Collection) :=
  try_catch (groupingPass map)
    (fun e =>
       closeUploadProgress ;;
       logError e "Failed to create album" ;;
       emit (SetDialogMessage CreateAlbumFailedDialog) ;;
       throw e).

(** Lines 246-304. *)
Definition uploadFilesToNewCollections (strategy : UPLOAD_STRATEGY)
    (collectionName : option string) : M unit :=
  try_catch
    (preUploadAction ;;
     current <- gets (@toUploadFiles W) ;;
     map <- lift (collectionNameToFilesMap strategy collectionName current) ;;
     batch <- guardedGroupingPass map ;;
     uploadFiles (fst batch) (snd batch))
    (fun e => logError e "Failed to upload files to new collections").

(** [uploadFilesToNewCollections] from its first [await] on, line 251:
    [await preUploadAction()] has delivered [outcome]. *)
Definition uploadFilesToNewCollections_resumed (strategy : UPLOAD_STRATEGY)
    (collectionName : option string) (outcome : Res unit) : M unit :=
  try_catch
    (lift outcome ;;
     current <- gets (@toUploadFiles W) ;;
     map <- lift (collectionNameToFilesMap strategy collectionName current) ;;
     batch <- guardedGroupingPass map ;;
     uploadFiles (fst batch) (snd batch))
    (fun e => logError e "Failed to upload files to new collections").

(** The call [uploadFilesToNewCollections(strategy, collectionName)]
    without [await]: [preUploadAction] runs up to its own [await], that is
    with the sync already asked for, and the rest waits. *)
Definition uploadFilesToNewCollections_started (strategy : UPLOAD_STRATEGY)
    (collectionName : option string) : M (list Job) :=
  start preUploadAction
    (uploadFilesToNewCollections_resumed strategy collectionName).

(** Lines 411-418. *)
Definition showCollectionCreateModal : M unit :=
  emit (SetCollectionNamerAttributes
          (mkNamerAttributes constants.CREATE_COLLECTION constants.CREATE
             None cb_uploadToSingleNewCollection)).

(** Lines 401-410. The upload is started and not awaited: what is
    returned is what it has left waiting. *)
Definition uploadToSingleNewCollection (collectionName : option string)
    : M (list Job) :=
  if truthy collectionName then
    uploadFilesToNewCollections_started SINGLE_COLLECTION collectionName
  else
    showCollectionCreateModal ;;
    ret [].

(** Lines 420-457. The suggestion object is the one the files-arrived
    effect has just stored with [setImportSuggestion]; the assignment of
    line 443 writes to that shared object, so the stored state changes
    with it. The function does not wait for the upload it starts: it
    returns what that upload has left waiting. *)
Definition handleCollectionCreationAndUpload
    (suggestion : ImportSuggestion) (isFirstUpload : bool)
    : M (list Job) :=
  pending <- gets (@isPendingDesktopUpload W) ;;
  if pending then
    modify (set_isPendingDesktopUpload false) ;;
    pendingName <- gets (@pendingDesktopUploadCollectionName W) ;;
    if truthy pendingName then
      waiting <- uploadToSingleNewCollection pendingName ;;
      modify (set_pendingDesktopUploadCollectionName None) ;;
      ret waiting
    else
      uploadFilesToNewCollections_started COLLECTION_PER_FOLDER None
  else
    type <- gets (@uploadType W) ;;
    if isElectron && uploadType_is type ZIPS then
      uploadFilesToNewCollections_started COLLECTION_PER_FOLDER None
    else
      let named :=
        mkImportSuggestion (Some FIRST_ALBUM_NAME)
          (hasNestedFolders suggestion) in
      let first := isFirstUpload && negb (truthy (rootFolderName suggestion)) in
      (if first then modify (setImportSuggestion_ named) else ret tt) ;;
      let suggestion := if first then named else suggestion in
      let showNextModal :=
        if hasNestedFolders suggestion then OpenChoiceModal
        else UploadToSingleNewCollection (rootFolderName suggestion) in
      emit (SetCollectionSelectorAttributes
              (mkSelectorAttributes cb_uploadFilesToExistingCollection
                 showNextModal constants.UPLOAD_TO_COLLECTION)) ;;
      ret [].

(** What the collection selector runs when the user asks for a new album:
    the [showNextModal] closure built on lines 445-451. *)
Definition runNextModal (next : NextModal) : M unit :=
  match next with
  | OpenChoiceModal => modify (setChoiceModalView_ true)
  | UploadToSingleNewCollection rootFolderName =>
      task (uploadToSingleNewCollection rootFolderName)
  end.

(** The two choices of [UploadStrategyChoiceModal], lines 513-520. *)
Definition uploadToSingleCollection : M unit :=
  suggestion <- gets (@importSuggestion W) ;;
  task (uploadToSingleNewCollection (rootFolderName suggestion)).

Definition uploadToMultipleCollection : M unit :=
  unawaited (uploadFilesToNewCollections COLLECTION_PER_FOLDER None).

(** The callback of line 139, run on what the shell answers; a rejection
    finds no handler. *)
Definition pendingUploadsArrived (answer : Res PendingUploads) : M unit :=
  match answer with
  | Ok pending =>
      resumeDesktopUpload (pending_type pending) (pending_files pending)
        (pending_collectionName pending)
  | Throw e => throw e
  end.

(** The effect run once when the component mounts, lines 123-144: the
    shell is asked for the pending uploads, and the callback waits for its
    answer. *)
Definition mountEffect : M (list Job) :=
  emit UploadManagerInit ;;
  if isElectron && checkAllElectronAPIsExists then
    start (call GetPendingUploads getPendingUploads) pendingUploadsArrived
  else ret [].

(** The effect on the three web sources, lines 146-164. *)
Definition selectedFilesEffect : M unit :=
  type <- gets (@uploadType W) ;;
  folders <- gets (@folderSelectorFiles W) ;;
  files <- gets (@fileSelectorFiles W) ;;
  dropped <- gets (@dragAndDropFiles W) ;;
  if uploadType_is type FOLDERS && nonEmpty folders then
    modify (setWebFiles_ folders)
  else if uploadType_is type FILES && nonEmpty files then
    modify (setWebFiles_ files)
  else if nonEmpty dropped then
    modify (setWebFiles_ dropped)
  else ret tt.

(** The effect on [webFiles], [appContext.sharedFiles] and
    [electronFiles], lines 166-216, as the closure of one render:
    [rendered] is the state that was rendered, whose [useState] values,
    props and context the closure holds; the refs are read when the effect
    runs. [appContext.resetSharedFiles] makes the context forget the shared
    files. The effect does not wait for an upload it starts: it returns
    what that upload has left waiting. *)
Definition filesArrivedEffect_of (rendered : St W) : M (list Job) :=
  let electron := electronFiles rendered in
  let web := webFiles rendered in
  let shared := sharedFiles rendered in
  if nonEmpty electron || nonEmpty web || nonEmpty shared then
    if uploadInProgress rendered then
      (* no-op: a upload is already in progress *)
      ret []
    else if isCanvasBlocked then
      emit (SetDialogMessage CanvasBlockedDialog) ;;
      ret []
    else
      emit (SetLoading true) ;;
      (if nonEmpty web then
         modify (set_toUploadFiles web) ;;
         modify (setWebFiles_ (Some []))
       else if nonEmpty shared then
         modify (set_toUploadFiles shared) ;;
         emit ResetSharedFiles ;;
         modify (set_sharedFiles None)
       else if nonEmpty electron then
         modify (set_toUploadFiles electron) ;;
         modify (setElectronFiles_ (Some []))
       else ret tt) ;;
      type <- gets (@uploadType W) ;;
      current <- gets (@toUploadFiles W) ;;
      let importSuggestion := getImportSuggestion type current in
      modify (setImportSuggestion_ importSuggestion) ;;
      waiting <- handleCollectionCreationAndUpload importSuggestion
                   (isFirstUpload rendered) ;;
      emit (SetLoading false) ;;
      ret waiting
  else ret [].

(** The effect as it runs right after a render of the current state. *)
Definition filesArrivedEffect : M (list Job) := fun s =>
  filesArrivedEffect_of s s.

(** Lines 458-474. *)
Definition handleDesktopUpload (type : UPLOAD_TYPE) : M unit :=
  modify (set_uploadType (Some type)) ;;
  files <-
    match type with
    | FILES => call ImportShowUploadFilesDialog showUploadFilesDialog
    | FOLDERS => call ImportShowUploadDirsDialog showUploadDirsDialog
    | ZIPS =>
        response <- call ImportShowUploadZipDialog showUploadZipDialog ;;
        modify (set_zipPaths (response_zipPaths response)) ;;
        ret (response_files response)
    end ;;
  if nonEmpty files then
    modify (setElectronFiles_ files) ;;
    emit CloseUploadTypeSelector
  else ret tt.

(** Lines 476-485. *)
Definition handleWebUpload (type : UPLOAD_TYPE) : M unit :=
  modify (set_uploadType (Some type)) ;;
  match type with
  | FILES => emit ShowUploadFilesDialog
  | FOLDERS => emit ShowUploadDirsDialog
  | ZIPS => emit (SetDialogMessage getDownloadAppMessage)
  end.

(** Lines 496-502. *)
Definition handleUpload (type : UPLOAD_TYPE) : M unit :=
  if isElectron && checkAllElectronAPIsExists then
    unawaited (handleDesktopUpload type)
  else unawaited (handleWebUpload type).

(** Lines 487-494. The call into the import service is not awaited. *)
Definition cancelUploads : M unit :=
  closeUploadProgress ;;
  (if isElectron then
     unawaited (call CancelRemainingUploads cancelRemainingUploads)
   else ret tt) ;;
  props_setUploadInProgress false ;;
  emit RouterReload ;;
  modify (fun s => set_world (reload (world s)) s).

(** New files reach the component through one of the three dependencies
    of the effect of lines 166-216: a change of [webFiles], of
    [appContext.sharedFiles] or of [electronFiles] runs the effect. *)
Inductive Arrival :=
  | WebFilesArrived (files : list AnyFile)
  | SharedFilesArrived (files : list AnyFile)
  | ElectronFilesArrived (files : list AnyFile).

Definition arrive (a : Arrival) : M unit :=
  match a with
  | WebFilesArrived files => modify (setWebFiles_ (Some files))
  | SharedFilesArrived files => modify (set_sharedFiles (Some files))
  | ElectronFilesArrived files => modify (setElectronFiles_ (Some files))
  end ;;
  task filesArrivedEffect.

Fixpoint arrivals (l : list Arrival) : M unit :=
  match l with
  | [] => ret tt
  | a :: rest => arrive a ;; arrivals rest
  end.

(** ** The page starts

    React runs the effects of a render after it, each on the values of
    that render, and renders again when a state has been set; the
    files-arrived effect runs again when one of its three dependencies has
    changed. A value set to an array of the same content counts as
    unchanged here; the component never sets one. *)
Definition sameFiles (x y : option (list AnyFile)) : bool :=
  if files_eq_dec x y then true else false.

Definition dependenciesChanged (rendered s : St W) : bool :=
  negb (sameFiles (webFiles rendered) (webFiles s)
        && sameFiles (sharedFiles rendered) (sharedFiles s)
        && sameFiles (electronFiles rendered) (electronFiles s)).

(** The three effects after the first render, in the order they are
    declared. What the second sets shows at the next render only. *)
Definition firstCommit : M (list Job) := fun rendered =>
  (mounted <- mountEffect ;;
   selectedFilesEffect ;;
   arrived <- filesArrivedEffect_of rendered ;;
   ret (mounted ++ arrived)) rendered.

(** The renders that follow a change of state, until nothing changes;
    [rendered] is the state of the last render. Each run of the effect that
    changes a dependency empties one of the three sources, so a few rounds
    are all there can be: [fuel] bounds them. *)
Fixpoint rerender (fuel : nat) (rendered : St W) : M (list Job) := fun s =>
  match fuel with
  | O => ret [] s
  | S fuel' =>
      if dependenciesChanged rendered s then
        (arrived <- filesArrivedEffect ;;
         more <- rerender fuel' s ;;
         ret (arrived ++ more)) s
      else ret [] s
  end.

(** The waiting jobs get their answers in the order they were left, React
    rendering again after each; returns the jobs that are still waiting
    when [fuel] is used up. *)
Fixpoint runJobs (renders fuel : nat) (jobs : list Job) : M (list Job) :=
  match fuel, jobs with
  | S fuel', job :: waiting => fun s =>
      (unawaited job ;;
       arrived <- rerender renders s ;;
       runJobs renders fuel' (waiting ++ arrived)) s
  | _, _ => ret jobs
  end.

(** What runs when the page starts and nothing else happens: the first
    commit, the renders it causes, and then the jobs left waiting, the
    answer of the shell about pending uploads among them. *)
Definition pageStart (fuel : nat) : M (list Job) := fun s =>
  (mounted <- firstCommit ;;
   arrived <- rerender fuel s ;;
   runJobs fuel fuel (mounted ++ arrived)) s.

End Uploader.


(** ** The state the component mounts with

    The initial values of lines 91-119; [DEFAULT_IMPORT_SUGGESTION]
    (constants/upload) and the props come from outside. *)
Definition initialState {W} (DEFAULT_IMPORT_SUGGESTION : ImportSuggestion)
    (uploadInProgress isFirstUpload : bool)
    (sharedFiles folderSelectorFiles fileSelectorFiles dragAndDropFiles :
       option (list AnyFile))
    (w : W) : St W :=
  {| uploadProgressView := false;
     choiceModalView := false;
     importSuggestion := DEFAULT_IMPORT_SUGGESTION;
     electronFiles := None;
     webFiles := Some [];
     toUploadFiles := None;
     isPendingDesktopUpload := false;
     pendingDesktopUploadCollectionName := Some "";
     uploadType := None;
     zipPaths := None;
     uploadInProgress := uploadInProgress;
     isFirstUpload := isFirstUpload;
     sharedFiles := sharedFiles;
     folderSelectorFiles := folderSelectorFiles;
     fileSelectorFiles := fileSelectorFiles;
     dragAndDropFiles := dragAndDropFiles;
     world := w |}.

(** * The upload manager

    The upload manager, the import service and [next/router] are not part
    of the sources; the component only calls them. What the specification
    says about the manager's batch state is modelled here, to settle the
    properties that speak about that state. *)

Module UploadManager.

Inductive UPLOAD_STAGES := Reading | Encrypting | Uploading | Done.

(** Modelled from the spec: [UploadBatchState] of the upload manager
    (services/upload/uploadManager is missing), section 3: the counters
    [finished] and [total], the in-progress uploads, the finished uploads
    segregated by outcome, the current stage and the live-photo flag. *)
Record UploadBatchState := mkBatch {
  finished : nat;
  total : nat;
  inProgressUploads : list FileWithCollection;
  succeeded : list FileWithCollection;
  skipped : list FileWithCollection;
  failed : list FileWithCollection;
  uploadStage : option UPLOAD_STAGES;
  hasLivePhotos : bool
}.

(** Modelled from the spec: the empty batch state that the missing
    upload manager starts with and resets to ("empty/zero", section 4.4). *)
Definition emptyBatch : UploadBatchState :=
  mkBatch 0 0 [] [] [] [] None false.

(** Modelled from the spec: the missing upload manager singleton, its
    batch state plus the items enqueued and not yet dequeued. *)
Record Manager := mkManager {
  batch : UploadBatchState;
  remaining : list FileWithCollection
}.

(** Modelled from the spec: the missing manager as the page load creates
    it, with nothing enqueued and an empty batch state. *)
Definition fresh : Manager := mkManager emptyBatch [].

(** Modelled from the spec: [prepareForNewUpload] of the missing upload
    manager, section 4.4: "resets UploadBatchState to empty/zero". *)
Definition prepareForNewUpload (m : Manager) : Res unit * Manager :=
  (Ok tt, mkManager emptyBatch (remaining m)).

Section Pipeline.
(** What the manager does with the items that are enqueued (the stages of
    section 4.4, with their progress callbacks) is left open. *)
Variable pipeline : Manager -> Res unit * Manager.

(** Modelled from the spec: [queueFilesForUpload] of the missing upload
    manager, section 4.4: "enqueues all items", which then go through the
    pipeline. *)
Definition queueFilesForUpload (items : list FileWithCollection)
    (collections : list Collection) (m : Manager) : Res unit * Manager :=
  pipeline (mkManager (batch m) (remaining m ++ items)).

(** Modelled from the spec: [retryFailedFiles] of the missing upload
    manager, section 4.4: "re-enqueues only items whose last recorded
    outcome was Failed"; with none of them there is nothing to do
    (section 8: "a no-op"). *)
Definition retryFailedFiles (m : Manager) : Res unit * Manager :=
  match failed (batch m) with
  | [] => (Ok tt, m)
  | items => pipeline (mkManager (batch m) (remaining m ++ items))
  end.
End Pipeline.

(** Outcome of one item at the transport layer (section 4.4). *)
Inductive Outcome :=
  | Uploaded
  | AlreadyUploaded
  | TransientFailure
  | TerminalFailure (e : JsError).

(** Modelled from the spec: a sequential pipeline of the missing upload
    manager, section 4.4 and 7: every dequeued item is counted as finished
    under its outcome; a terminal failure halts dequeuing and is thrown. *)
Fixpoint drain (transport : FileWithCollection -> Outcome)
    (queue : list FileWithCollection) (b : UploadBatchState)
    : Res unit * Manager :=
  match queue with
  | [] => (Ok tt, mkManager b [])
  | item :: rest =>
      match transport item with
      | Uploaded =>
          drain transport rest
            (mkBatch (S (finished b)) (total b) (inProgressUploads b)
               (succeeded b ++ [item]) (skipped b) (failed b)
               (uploadStage b) (hasLivePhotos b))
      | AlreadyUploaded =>
          drain transport rest
            (mkBatch (S (finished b)) (total b) (inProgressUploads b)
               (succeeded b) (skipped b ++ [item]) (failed b)
               (uploadStage b) (hasLivePhotos b))
      | TransientFailure =>
          drain transport rest
            (mkBatch (S (finished b)) (total b) (inProgressUploads b)
               (succeeded b) (skipped b) (failed b ++ [item])
               (uploadStage b) (hasLivePhotos b))
      | TerminalFailure e => (Throw e, mkManager b rest)
      end
  end.

(** Modelled from the spec: the pipeline of the missing upload manager
    run to its end on what is enqueued, [total] counting the items. *)
Definition sequentialPipeline (transport : FileWithCollection -> Outcome)
    (m : Manager) : Res unit * Manager :=
  let b := batch m in
  drain transport (remaining m)
    (mkBatch (finished b) (total b + length (remaining m))
       (inProgressUploads b) (succeeded b) (skipped b) (failed b)
       (Some Uploading) (hasLivePhotos b)).

End UploadManager.

(** ** The world: the manager singleton of the page and what is outside *)

Record World (E : Type) := mkWorld {
  manager : UploadManager.Manager;
  outside : E
}.

Section World.
Context {E : Type} {outer : ImportEnv E}.

(** A call that only concerns the outside. *)
Definition outsideCall {A} (op : E -> Res A * E) (w : World E)
    : Res A * World E :=
  let (r, e) := op (outside w) in (r, mkWorld (manager w) e).

(** A call that only concerns the manager. *)
Definition managerCall {A}
    (op : UploadManager.Manager -> Res A * UploadManager.Manager)
    (w : World E) : Res A * World E :=
  let (r, m) := op (manager w) in (r, mkWorld m (outside w)).

#[export] Instance ImportEnv_World : ImportEnv (World E) := {
  isElectron := isElectron (W := E);
  checkAllElectronAPIsExists := checkAllElectronAPIsExists (W := E);
  isCanvasBlocked := isCanvasBlocked (W := E);
  syncWithRemote force silent := outsideCall (syncWithRemote force silent);
  syncCollections := outsideCall syncCollections;
  createAlbum collectionName existing :=
    outsideCall (createAlbum collectionName existing);
  getPendingUploads := outsideCall getPendingUploads;
  setToUploadCollection collections :=
    outsideCall (setToUploadCollection collections);
  setToUploadFiles type paths := outsideCall (setToUploadFiles type paths);
  cancelRemainingUploads := outsideCall cancelRemainingUploads;
  showUploadFilesDialog := outsideCall showUploadFilesDialog;
  showUploadDirsDialog := outsideCall showUploadDirsDialog;
  showUploadZipDialog := outsideCall showUploadZipDialog;
  getDownloadAppMessage := getDownloadAppMessage (W := E);
  getImportSuggestion := getImportSuggestion (W := E);
  groupFilesBasedOnParentFolder := groupFilesBasedOnParentFolder (W := E)
}.

Definition UploadManagerOps_World
    (pipeline : UploadManager.Manager -> Res unit * UploadManager.Manager)
    : UploadManagerOps (World E) := {|
  prepareForNewUpload := managerCall UploadManager.prepareForNewUpload;
  queueFilesForUpload items collections :=
    managerCall (UploadManager.queueFilesForUpload pipeline items collections);
  retryFailedFiles := managerCall (UploadManager.retryFailedFiles pipeline)
|}.

(** Modelled from the spec: what [Router.reload()] does to the missing
    upload manager. The page is loaded anew, so the manager singleton is
    created again: nothing stays enqueued and the batch state is empty
    (section 4.4: "after cancel, UploadBatchState is cleared and the UI is
    instructed to reload/reset"). What is outside the page stays. *)
#[export] Instance Browser_World : Browser (World E) := {
  reload w := mkWorld UploadManager.fresh (outside w)
}.

Definition counters (w : World E) : nat * nat :=
  (UploadManager.finished (UploadManager.batch (manager w)),
   UploadManager.total (UploadManager.batch (manager w))).

End World.

(** * A scripted outside world

    Concrete collaborators to run the handlers on: the outside is the next
    album id the server hands out, and a scenario says which calls fail. *)

Module Sample.

Record Scenario := mkScenario {
  electron : bool;
  canvasBlocked : bool;
  remoteSyncFails : bool;
  syncCollectionsFails : bool;
  failingAlbums : list (option string);
  persisted : PendingUploads;
  suggestion : ImportSuggestion;
  transport : FileWithCollection -> UploadManager.Outcome
}.

Definition answer {A} (fails : bool) (a : A) (what : string) (e : Z)
    : Res A * Z :=
  if fails then (Throw (mkError what), e) else (Ok a, e).

Definition nameOf (collectionName : option string) : string :=
  match collectionName with Some n => n | None => "" end.

(** The part of a path before its first slash, if it has one. *)
Fixpoint topLevelFolder (path : string) : option string :=
  match path with
  | EmptyString => None
  | String c rest =>
      if Ascii.eqb c "/"%char then Some EmptyString
      else option_map (String c) (topLevelFolder rest)
  end.

Definition folderOf (f : AnyFile) : string :=
  match file_path f with
  | Some path =>
      match topLevelFolder path with Some d => d | None => "" end
  | None => ""
  end.

Definition addToGroup (m : JsMap.t string (list AnyFile)) (f : AnyFile)
    : JsMap.t string (list AnyFile) :=
  let k := folderOf f in
  let group :=
    match JsMap.get string_dec k m with Some g => g | None => [] end in
  JsMap.set string_dec k (group ++ [f]) m.

Definition groupByFolder (files : option (list AnyFile))
    : Res (JsMap.t string (list AnyFile)) :=
  match files with
  | Some fs => Ok (fold_left addToGroup fs JsMap.empty)
  | None => Throw TypeError_null
  end.

Definition env (sc : Scenario) : ImportEnv Z := {|
  isElectron := electron sc;
  checkAllElectronAPIsExists := electron sc;
  isCanvasBlocked := canvasBlocked sc;
  syncWithRemote _ _ := answer (remoteSyncFails sc) tt "sync failed";
  syncCollections := answer (syncCollectionsFails sc) [] "sync failed";
  createAlbum collectionName _ e :=
    if existsb (fun n => if name_eq_dec n collectionName then true else false)
         (failingAlbums sc)
    then (Throw (mkError "create album failed"), e)
    else (Ok (mkCollection e (nameOf collectionName)), (e + 1)%Z);
  getPendingUploads := answer false (persisted sc) "";
  setToUploadCollection _ := answer false tt "";
  setToUploadFiles _ _ := answer false tt "";
  cancelRemainingUploads := answer false tt "";
  showUploadFilesDialog := answer false None "";
  showUploadDirsDialog := answer false None "";
  showUploadZipDialog := answer false (mkZipDialogResponse None None) "";
  getDownloadAppMessage :=
    mkDialog constants.DOWNLOAD constants.DOWNLOAD
      (mkButton (Some constants.CLOSE) None None) None;
  getImportSuggestion _ _ := suggestion sc;
  groupFilesBasedOnParentFolder := groupByFolder
|}.

Definition errors : CustomError.t := {|
  CustomError.SESSION_EXPIRED := "session expired";
  CustomError.SUBSCRIPTION_EXPIRED := "subscription expired";
  CustomError.STORAGE_QUOTA_EXCEEDED := "storage quota exceeded"
|}.

Definition noPending : PendingUploads := mkPendingUploads None None None.

Definition allUploaded (_ : FileWithCollection) : UploadManager.Outcome :=
  UploadManager.Uploaded.

(** Everything works, in the browser. *)
Definition web : Scenario :=
  mkScenario false false false false [] noPending
    (mkImportSuggestion None false) allUploaded.

(** The world a page starts in: a fresh manager, album ids from 100. *)
Definition start : World Z := mkWorld UploadManager.fresh 100%Z.

Definition defaultSuggestion : ImportSuggestion :=
  mkImportSuggestion None false.

(** The component as mounted, nothing selected or shared. *)
Definition mounted (isFirstUpload : bool) (w : World Z) : St (World Z) :=
  initialState defaultSuggestion false isFirstUpload None None None None w.

Definition ax : AnyFile := mkFile "x.jpg" (Some "A/x.jpg").
Definition ay : AnyFile := mkFile "y.jpg" (Some "A/y.jpg").
Definition bz : AnyFile := mkFile "z.jpg" (Some "B/z.jpg").
Definition loose1 : AnyFile := mkFile "1.jpg" None.
Definition loose2 : AnyFile := mkFile "2.jpg" None.
Definition loose3 : AnyFile := mkFile "3.jpg" None.

(** The transport refuses the item with [localID] 2: the quota is used up. *)
Definition quotaOnThird (item : FileWithCollection)
    : UploadManager.Outcome :=
  if Nat.eqb (localID item) 2 then
    UploadManager.TerminalFailure (mkError "storage quota exceeded")
  else UploadManager.Uploaded.

Definition quotaExceeded : Scenario :=
  mkScenario false false false false [] noPending
    (mkImportSuggestion None false) quotaOnThird.

Definition manager_of (sc : Scenario) : UploadManagerOps (World Z) :=
  UploadManagerOps_World
    (UploadManager.sequentialPipeline (transport sc)).

Definition album : Collection := mkCollection 7 "Trip".

Definition fiveItems : list FileWithCollection :=
  existingCollectionBatch [ax; ay; bz; loose1; loose2] album.

(** The server refuses to create the album "B". *)
Definition albumBFails : Scenario :=
  mkScenario false false false false [Some "B"] noPending
    (mkImportSuggestion None false) allUploaded.

(** The component with three files picked, two in folder A, one in B. *)
Definition threePicked : St (World Z) :=
  set_toUploadFiles (Some [ax; ay; bz]) (mounted true start).

(** The batch of the three picked files when every album is created:
    album ids are handed out from 100. *)
Definition batchOfThree : list FileWithCollection :=
  [mkFileWithCollection ax 0 100; mkFileWithCollection ay 1 100;
   mkFileWithCollection bz 2 101].

Definition albumsOfThree : list Collection :=
  [mkCollection 100 "A"; mkCollection 101 "B"].

Definition importEnv (sc : Scenario) : ImportEnv (World Z) :=
  ImportEnv_World (outer := env sc).

(** The groups of the three picked files. *)
Definition groupsOfThree : JsMap.t (option string) (option (list AnyFile)) :=
  JsMap.nullable (fold_left addToGroup [ax; ay; bz] JsMap.empty).

(** The desktop shell, with an interrupted upload to "Trip" on record. *)
Definition interrupted : Scenario :=
  mkScenario true false false false []
    (mkPendingUploads (Some [ax; bz]) (Some "Trip") (Some FOLDERS))
    (mkImportSuggestion None false) allUploaded.


(** An upload is running. *)
Definition uploading : St (World Z) :=
  set_uploadInProgress true threePicked.

(** Three loose files have been uploaded to an existing album: the
    counters stand at 3 of 3 and nothing has failed. *)
Definition threeDone : St (World Z) :=
  final
    (uploadFilesToExistingCollection (env := importEnv web)
       (uploadManager := manager_of web) (customError := errors) album
       (set_toUploadFiles (Some [loose1; loose2; loose3])
          (mounted true start))).

End Sample.

(** * What is observed of a run *)

(** Kinds of calls. *)
Definition is_queueFilesForUpload (e : Event) : bool :=
  match e with QueueFilesForUpload _ _ => true | _ => false end.

Definition is_createAlbum (e : Event) : bool :=
  match e with CreateAlbum _ _ => true | _ => false end.



Definition is_setDialogMessage (e : Event) : bool :=
  match e with SetDialogMessage _ => true | _ => false end.

Definition is_logError (e : Event) : bool :=
  match e with LogError _ _ => true | _ => false end.

(** What the user is shown about a failed upload. *)
Definition is_userFacing (e : Event) : bool :=
  match e with
  | ShowSessionExpiredMessage | SetNotificationAttributes _ => true
  | _ => false
  end.

(** The names [createAlbum] was called with, in call order. *)
Fixpoint createAlbumCalls (evs : list Event) : list (option string) :=
  match evs with
  | [] => []
  | CreateAlbum collectionName _ :: rest =>
      collectionName :: createAlbumCalls rest
  | _ :: rest => createAlbumCalls rest
  end.

(** The file and the target collection of an item. *)
Definition pairOf (item : FileWithCollection) : AnyFile * Z :=
  (file item, collectionID item).

(** Group by group, every file of the group with the id of the collection
    that stands at the group's position. *)
Definition groupPairs
    (entries : list (option string * option (list AnyFile)))
    (collections : list Collection) : list (AnyFile * Z) :=
  flat_map
    (fun ec =>
       match snd (fst ec) with
       | Some files => map (fun f => (f, collection_id (snd ec))) files
       | None => []
       end)
    (combine entries collections).

(** The calls an upload to new collections can make. *)
Definition madeByUpload (e : Event) : bool :=
  match e with
  | CloseCollectionSelector | CloseUploadTypeSelector
  | PrepareForNewUpload | SetUploadInProgress _ | SyncWithRemote _ _
  | SyncCollections | CreateAlbum _ _
  | SetToUploadCollection _ | SetToUploadFiles _ _
  | QueueFilesForUpload _ _
  | LogError _ _ | SetDialogMessage _
  | ShowSessionExpiredMessage | SetNotificationAttributes _ => true
  | _ => false
  end.


(** What [showUserFacingError] is to show for an error message. *)
Definition Surfaced {customError : CustomError.t} (err : string)
    (shown : list Event) : Prop :=
  (err = CustomError.SESSION_EXPIRED ->
   shown = [ShowSessionExpiredMessage])
  /\ (err = CustomError.SUBSCRIPTION_EXPIRED ->
      shown = [SetNotificationAttributes
                 (mkNotification "danger" constants.SUBSCRIPTION_EXPIRED
                    (Some (mkAction constants.UPGRADE_NOW
                             showPlanSelectorModal))
                    None)])
  /\ (err = CustomError.STORAGE_QUOTA_EXCEEDED ->
      shown = [SetNotificationAttributes
                 (mkNotification "danger" constants.STORAGE_QUOTA_EXCEEDED
                    (Some (mkAction constants.RENEW_NOW
                             showPlanSelectorModal))
                    (Some DiscFullIcon))])
  /\ (err <> CustomError.SESSION_EXPIRED ->
      err <> CustomError.SUBSCRIPTION_EXPIRED ->
      err <> CustomError.STORAGE_QUOTA_EXCEEDED ->
      shown = [SetNotificationAttributes
                 (mkNotification "danger" constants.UNKNOWN_ERROR
                    None None)]).

Section Observations.
Context {W : Type} {env : ImportEnv W}.

(** [Created existing w entries cs w']: starting in the world [w], the
    calls [createAlbum(name, existing)] for the names of [entries], made
    in that order, return the collections [cs] and leave the world [w']. *)
Inductive Created (existing : list Collection)
    : W -> list (option string * option (list AnyFile)) ->
      list Collection -> W -> Prop :=
  | Created_nil w : Created existing w [] [] w
  | Created_cons w collectionName files rest c w1 cs w2 :
      createAlbum collectionName existing w = (Ok c, w1) ->
      Created existing w1 rest cs w2 ->
      Created existing w ((collectionName, files) :: rest) (c :: cs) w2.

(** A part of the state that an upload does not write: it is not the
    progress view, the in-progress flag, the zip paths or the world. *)
Definition NotWrittenByUpload {B} (f : St W -> B) : Prop :=
  (forall b s, f (setUploadProgressView_ b s) = f s)
  /\ (forall b s, f (set_uploadInProgress b s) = f s)
  /\ (forall z s, f (set_zipPaths z s) = f s)
  /\ (forall w s, f (set_world w s) = f s).


End Observations.
(** * Reasoning about handlers *)

Section Reasoning.
Context {W : Type}.
Implicit Type s : St W.

Lemma bind_run {A B} (c : M A) (k : A -> M B) s :
  bind c k s =
  match result (c s) with
  | Ok a => mkRun (events (c s) ++ events (k a (final (c s))))
              (final (k a (final (c s)))) (result (k a (final (c s))))
  | Throw e => mkRun (events (c s)) (final (c s)) (Throw e)
  end.
Proof. reflexivity. Qed.

(** Stepping through a handler, one statement at a time. *)
Lemma bind_ret {A B} (a : A) (k : A -> M B) s : bind (ret a) k s = k a s.
Proof. unfold bind, ret. simpl. now destruct (k a s). Qed.


Lemma bind_modify {B} (g : St W -> St W) (k : unit -> M B) s :
  bind (modify g) k s = k tt (g s).
Proof. unfold bind, modify. simpl. now destruct (k tt (g s)). Qed.

Lemma bind_emit {B} e (k : unit -> M B) s :
  bind (emit e) k s
  = mkRun (e :: events (k tt s)) (final (k tt s)) (result (k tt s)).
Proof. reflexivity. Qed.

Lemma bind_unawaited {A B} (c : M A) (k : unit -> M B) s :
  bind (unawaited c) k s
  = mkRun (events (c s) ++ events (k tt (final (c s))))
      (final (k tt (final (c s)))) (result (k tt (final (c s)))).
Proof. reflexivity. Qed.

Lemma bind_settled {A B} (c : M A) (k : Res A -> M B) s :
  bind (settled c) k s
  = mkRun (events (c s) ++ events (k (result (c s)) (final (c s))))
      (final (k (result (c s)) (final (c s))))
      (result (k (result (c s)) (final (c s)))).
Proof. reflexivity. Qed.

Lemma start_run {A} (first : M A) (rest : Res A -> M unit) s :
  start first rest s
  = mkRun (events (first s)) (final (first s))
      (Ok [rest (result (first s))]).
Proof.
  unfold start. rewrite bind_settled. cbn [ret events final result].
  now rewrite app_nil_r.
Qed.

Lemma settle_one (job : Job) s :
  settle [job] s = mkRun (events (job s)) (final (job s)) (Ok tt).
Proof.
  cbn [settle]. rewrite bind_unawaited. cbn [ret events final result].
  now rewrite app_nil_r.
Qed.

Lemma task_run (handler : M (list Job)) s :
  task handler s
  = match result (handler s) with
    | Ok jobs =>
        mkRun (events (handler s) ++ events (settle jobs (final (handler s))))
          (final (settle jobs (final (handler s))))
          (result (settle jobs (final (handler s))))
    | Throw e => mkRun (events (handler s)) (final (handler s)) (Throw e)
    end.
Proof. reflexivity. Qed.

(** A function that is started and left alone does, in the end, what it
    does when nothing comes between its start and its end. *)
Lemma task_start {A} (first : M A) (rest : Res A -> M unit) s :
  task (start first rest) s
  = mkRun (events (first s)
           ++ events (rest (result (first s)) (final (first s))))
      (final (rest (result (first s)) (final (first s)))) (Ok tt).
Proof.
  rewrite task_run, start_run. cbn [events final result].
  now rewrite settle_one.
Qed.

Lemma bind_assoc {A B C} (c : M A) (k1 : A -> M B) (k2 : B -> M C) s :
  bind (bind c k1) k2 s = bind c (fun a => bind (k1 a) k2) s.
Proof.
  unfold bind. destruct (c s) as [ev s1 [a|e]]; simpl; [| reflexivity].
  destruct (k1 a s1) as [ev' s2 [b|e]]; simpl; [| reflexivity].
  now rewrite app_assoc.
Qed.

(** ** Handlers that never make a call of a given kind

    [Silent p c]: no call recorded by [c] satisfies [p]. *)
Definition Silent {A} (p : Event -> bool) (c : @M W A) : Prop :=
  forall s, filter p (events (c s)) = [].

Lemma Silent_ret {A} p (a : A) : Silent p (ret a).
Proof. intros s. reflexivity. Qed.

Lemma Silent_throw {A} p e : Silent p (@throw W A e).
Proof. intros s. reflexivity. Qed.

Lemma Silent_gets {A} p (f : St W -> A) : Silent p (gets f).
Proof. intros s. reflexivity. Qed.

Lemma Silent_modify p (f : St W -> St W) : Silent p (modify f).
Proof. intros s. reflexivity. Qed.

Lemma Silent_deref {A} p (x : option A) : Silent p (@deref W A x).
Proof. intros s. destruct x; reflexivity. Qed.

Lemma Silent_lift {A} p (r : Res A) : Silent p (@lift W A r).
Proof. intros s. destruct r; reflexivity. Qed.

Lemma Silent_emit p e : p e = false -> Silent p (@emit W e).
Proof. intros H s. simpl. now rewrite H. Qed.

Lemma Silent_call {A} p e (op : W -> Res A * W) :
  p e = false -> Silent p (call e op).
Proof.
  intros H s. unfold call. destruct (op (world s)). simpl. now rewrite H.
Qed.

Lemma Silent_bind {A B} p (c : M A) (k : A -> M B) :
  Silent p c -> (forall a, Silent p (k a)) -> Silent p (bind c k).
Proof.
  intros Hc Hk s. rewrite bind_run.
  destruct (result (c s)); simpl.
  - now rewrite filter_app, Hc, Hk.
  - apply Hc.
Qed.

Lemma Silent_try_catch {A} p (c : M A) (h : JsError -> M A) :
  Silent p c -> (forall e, Silent p (h e)) -> Silent p (try_catch c h).
Proof.
  intros Hc Hh s. unfold try_catch.
  destruct (result (c s)); simpl.
  - apply Hc.
  - now rewrite filter_app, Hc, Hh.
Qed.

Lemma Silent_try_finally {A} p (c : M A) (f : M unit) :
  Silent p c -> Silent p f -> Silent p (try_finally c f).
Proof.
  intros Hc Hf s. unfold try_finally. simpl.
  now rewrite filter_app, Hc, Hf.
Qed.

Lemma Silent_unawaited {A} p (c : M A) : Silent p c -> Silent p (unawaited c).
Proof. intros Hc s. apply Hc. Qed.

Lemma Silent_start {A} p (first : M A) (rest : Res A -> M unit) :
  Silent p first -> Silent p (start first rest).
Proof. intros Hc s. rewrite start_run. apply Hc. Qed.

(** ** Handlers that leave a part of the state alone

    [Keeps f c]: the component [f] of the state is the same after [c]. *)
Definition Keeps {A B} (f : St W -> B) (c : @M W A) : Prop :=
  forall s, f (final (c s)) = f s.

Lemma Keeps_ret {A B} (f : St W -> B) (a : A) : Keeps f (ret a).
Proof. intros s. reflexivity. Qed.

Lemma Keeps_throw {A B} (f : St W -> B) e : Keeps f (@throw W A e).
Proof. intros s. reflexivity. Qed.

Lemma Keeps_gets {A B} (f : St W -> B) (g : St W -> A) : Keeps f (gets g).
Proof. intros s. reflexivity. Qed.

Lemma Keeps_emit {B} (f : St W -> B) e : Keeps f (emit e).
Proof. intros s. reflexivity. Qed.

Lemma Keeps_deref {A B} (f : St W -> B) (x : option A) : Keeps f (deref x).
Proof. intros s. destruct x; reflexivity. Qed.

Lemma Keeps_lift {A B} (f : St W -> B) (r : Res A) : Keeps f (lift r).
Proof. intros s. destruct r; reflexivity. Qed.

Lemma Keeps_modify {B} (f : St W -> B) (g : St W -> St W) :
  (forall s, f (g s) = f s) -> Keeps f (modify g).
Proof. intros H s. apply H. Qed.

Lemma Keeps_call {A B} (f : St W -> B) e (op : W -> Res A * W) :
  (forall w s, f (set_world w s) = f s) -> Keeps f (call e op).
Proof.
  intros H s. unfold call. destruct (op (world s)). simpl. apply H.
Qed.

Lemma Keeps_bind {A B C} (f : St W -> C) (c : M A) (k : A -> M B) :
  Keeps f c -> (forall a, Keeps f (k a)) -> Keeps f (bind c k).
Proof.
  intros Hc Hk s. rewrite bind_run.
  destruct (result (c s)); simpl.
  - now rewrite Hk, Hc.
  - apply Hc.
Qed.

Lemma Keeps_try_catch {A C} (f : St W -> C) (c : M A) (h : JsError -> M A) :
  Keeps f c -> (forall e, Keeps f (h e)) -> Keeps f (try_catch c h).
Proof.
  intros Hc Hh s. unfold try_catch.
  destruct (result (c s)); simpl.
  - apply Hc.
  - now rewrite Hh, Hc.
Qed.

Lemma Keeps_try_finally {A C} (f : St W -> C) (c : M A) (g : M unit) :
  Keeps f c -> Keeps f g -> Keeps f (try_finally c g).
Proof.
  intros Hc Hg s. unfold try_finally. simpl. now rewrite Hg, Hc.
Qed.

Lemma Keeps_unawaited {A C} (f : St W -> C) (c : M A) :
  Keeps f c -> Keeps f (unawaited c).
Proof. intros Hc s. apply Hc. Qed.

Lemma Keeps_start {A C} (f : St W -> C) (first : M A)
    (rest : Res A -> M unit) :
  Keeps f first -> Keeps f (start first rest).
Proof. intros Hc s. rewrite start_run. apply Hc. Qed.

Lemma Silent_weaken {A} (p q : Event -> bool) (c : M A) :
  (forall e, p e = true -> q e = true) -> Silent q c -> Silent p c.
Proof.
  intros Hpq Hq s. specialize (Hq s).
  induction (events (c s)) as [|e l IH]; [reflexivity|].
  simpl in *. destruct (q e) eqn:Hqe; [discriminate|].
  destruct (p e) eqn:Hpe; [apply Hpq in Hpe; congruence | now apply IH].
Qed.

Lemma Silent_not_In {A} p (c : M A) s e :
  Silent p c -> p e = true -> ~ In e (events (c s)).
Proof.
  intros Hc He Hin.
  assert (Hf : In e (filter p (events (c s)))) by (apply filter_In; auto).
  rewrite Hc in Hf. exact Hf.
Qed.

End Reasoning.

(** Walking through a handler, statement by statement: binds, handlers
    and branches are opened, every call is checked against the predicate. *)
Ltac silent_step :=
  lazymatch goal with
  | |- Silent _ (bind _ _) => apply Silent_bind; [| intros ?]
  | |- Silent _ (try_catch _ _) => apply Silent_try_catch; [| intros ?]
  | |- Silent _ (try_finally _ _) => apply Silent_try_finally
  | |- Silent _ (unawaited _) => apply Silent_unawaited
  | |- Silent _ (start _ _) => apply Silent_start
  | |- Silent _ (emit _) => apply Silent_emit; solve [auto]
  | |- Silent _ (call _ _) => apply Silent_call; solve [auto]
  | |- Silent _ (ret _) => apply Silent_ret
  | |- Silent _ (throw _) => apply Silent_throw
  | |- Silent _ (gets _) => apply Silent_gets
  | |- Silent _ (modify _) => apply Silent_modify
  | |- Silent _ (deref _) => apply Silent_deref
  | |- Silent _ (lift _) => apply Silent_lift
  | |- Silent _ (if ?b then _ else _) => destruct b
  | |- Silent _ (match ?x with _ => _ end) => destruct x
  end.

Ltac silent := repeat silent_step.

Ltac keeps_step :=
  lazymatch goal with
  | |- Keeps _ (bind _ _) => apply Keeps_bind; [| intros ?]
  | |- Keeps _ (try_catch _ _) => apply Keeps_try_catch; [| intros ?]
  | |- Keeps _ (try_finally _ _) => apply Keeps_try_finally
  | |- Keeps _ (unawaited _) => apply Keeps_unawaited
  | |- Keeps _ (start _ _) => apply Keeps_start
  | |- Keeps _ (emit _) => apply Keeps_emit
  | |- Keeps _ (call _ _) => apply Keeps_call; solve [auto]
  | |- Keeps _ (ret _) => apply Keeps_ret
  | |- Keeps _ (throw _) => apply Keeps_throw
  | |- Keeps _ (gets _) => apply Keeps_gets
  | |- Keeps _ (modify _) => apply Keeps_modify; solve [auto]
  | |- Keeps _ (deref _) => apply Keeps_deref
  | |- Keeps _ (lift _) => apply Keeps_lift
  | |- Keeps _ (if ?b then _ else _) => destruct b
  | |- Keeps _ (match ?x with _ => _ end) => destruct x
  end.

Ltac keeps := repeat keeps_step.
(** * Properties of the component *)

Lemma map_indexed_length {A B} (f : A -> nat -> B) l : forall start,
  length (map_indexed f start l) = length l.
Proof. induction l; intros; simpl; auto. Qed.

Lemma map_indexed_localID c files : forall start,
  map localID
    (map_indexed (fun file index => mkFileWithCollection file index c)
       start files)
  = seq start (length files).
Proof. induction files; intros; simpl; [|rewrite IHfiles]; reflexivity. Qed.

Lemma map_indexed_pairOf c files : forall start,
  map pairOf
    (map_indexed (fun file index => mkFileWithCollection file index c)
       start files)
  = map (fun f => (f, c)) files.
Proof. induction files; intros; simpl; [|rewrite IHfiles]; reflexivity. Qed.

Section UploaderFacts.
Context {W : Type} {env : ImportEnv W} {uploadManager : UploadManagerOps W}
        {browser : Browser W} {customError : CustomError.t}.
Implicit Type s : St W.

Lemma postUploadAction_run s :
  events (postUploadAction s)
    = [SetUploadInProgress false; SyncWithRemote None None]
  /\ uploadInProgress (final (postUploadAction s)) = false
  /\ result (postUploadAction s) = Ok tt.
Proof.
  unfold postUploadAction, props_setUploadInProgress, unawaited, call, bind,
    emit, modify. simpl.
  destruct (syncWithRemote None None (world s)) as [r w]. simpl. auto.
Qed.

Lemma showUserFacingError_run err s :
  exists shown,
    showUserFacingError err s = mkRun [shown] s (Ok tt)
    /\ is_userFacing shown = true.
Proof.
  unfold showUserFacingError.
  destruct (String.eqb err CustomError.SESSION_EXPIRED);
    eexists; split; reflexivity.
Qed.

Lemma Silent_showUserFacingError p err :
  (forall e, is_userFacing e = true -> p e = false) ->
  Silent p (showUserFacingError (W := W) err).
Proof.
  intros Hp s. destruct (showUserFacingError_run err s) as [e [-> He]].
  simpl. now rewrite (Hp e He).
Qed.

Lemma Silent_preUploadAction p :
  p CloseCollectionSelector = false ->
  p CloseUploadTypeSelector = false ->
  p PrepareForNewUpload = false ->
  p (SetUploadInProgress true) = false ->
  p (SyncWithRemote (Some true) (Some true)) = false ->
  Silent p preUploadAction.
Proof.
  intros. unfold preUploadAction, props_setUploadInProgress. silent.
Qed.

Lemma Silent_postUploadAction p :
  p (SetUploadInProgress false) = false ->
  p (SyncWithRemote None None) = false ->
  Silent p postUploadAction.
Proof.
  intros H1 H2 s. destruct (postUploadAction_run s) as [-> _].
  simpl. now rewrite H1, H2.
Qed.

Lemma Silent_uploadFiles_try p items collections :
  (forall cs, p (SetToUploadCollection cs) = false) ->
  (forall type paths, p (SetToUploadFiles type paths) = false) ->
  p (QueueFilesForUpload items collections) = false ->
  Silent p (uploadFiles_try items collections).
Proof.
  intros. unfold uploadFiles_try. silent.
Qed.

Lemma Silent_uploadFiles p items collections :
  (forall cs, p (SetToUploadCollection cs) = false) ->
  (forall type paths, p (SetToUploadFiles type paths) = false) ->
  p (QueueFilesForUpload items collections) = false ->
  (forall e, is_userFacing e = true -> p e = false) ->
  p (SetUploadInProgress false) = false ->
  p (SyncWithRemote None None) = false ->
  Silent p (uploadFiles items collections).
Proof.
  intros Hc Hf Hq Hu H1 H2. unfold uploadFiles.
  apply Silent_try_finally; [| now apply Silent_postUploadAction].
  apply Silent_try_catch; [now apply Silent_uploadFiles_try | intros err].
  apply Silent_bind; [now apply Silent_showUserFacingError | intros _].
  apply Silent_bind; [apply Silent_modify | intros _; apply Silent_throw].
Qed.

Lemma uploadFiles_run items collections s :
  let body := uploadFiles_try items collections s in
  events (uploadFiles items collections s)
    = events body
      ++ match result body with
         | Ok _ => []
         | Throw err => events (showUserFacingError (message err) (final body))
         end
      ++ [SetUploadInProgress false; SyncWithRemote None None]
  /\ result (uploadFiles items collections s) = result body
  /\ uploadInProgress (final (uploadFiles items collections s)) = false.
Proof.
  intros body. unfold uploadFiles, try_finally.
  match goal with
  | |- context [postUploadAction ?x] =>
      destruct (postUploadAction_run x) as (Hev & Hflag & Hres)
  end.
  cbv beta zeta. cbn [events final result].
  rewrite Hev, Hflag, Hres. clear Hev Hflag Hres.
  unfold try_catch. fold body. cbv beta zeta.
  destruct (result body) as [[]|err] eqn:Hbody; cbn [events final result].
  - rewrite Hbody. auto.
  - destruct (showUserFacingError_run (message err) (final body))
      as [shown [Hrun _]].
    rewrite !bind_run, Hrun. simpl. rewrite <- app_assoc. auto.
Qed.

Lemma retryFailed_run s :
  let body := retryFailed_try s in
  events (retryFailed s)
    = events body
      ++ match result body with
         | Ok _ => []
         | Throw err => events (showUserFacingError (message err) (final body))
         end
      ++ [SetUploadInProgress false; SyncWithRemote None None]
  /\ result (retryFailed s) = Ok tt
  /\ uploadInProgress (final (retryFailed s)) = false.
Proof.
  intros body. unfold retryFailed, try_finally.
  match goal with
  | |- context [postUploadAction ?x] =>
      destruct (postUploadAction_run x) as (Hev & Hflag & Hres)
  end.
  cbv beta zeta. cbn [events final result].
  rewrite Hev, Hflag, Hres. clear Hev Hflag Hres.
  unfold try_catch. fold body. cbv beta zeta.
  destruct (result body) as [[]|err] eqn:Hbody; cbn [events final result].
  - rewrite Hbody. auto.
  - destruct (showUserFacingError_run (message err) (final body))
      as [shown [Hrun _]].
    rewrite !bind_run, Hrun. simpl. rewrite <- app_assoc. auto.
Qed.

Lemma Silent_retryFailed_try p :
  p CloseCollectionSelector = false ->
  p CloseUploadTypeSelector = false ->
  p PrepareForNewUpload = false ->
  p (SetUploadInProgress true) = false ->
  p (SyncWithRemote (Some true) (Some true)) = false ->
  p RetryFailedFiles = false ->
  Silent p retryFailed_try.
Proof.
  intros. unfold retryFailed_try. silent. now apply Silent_preUploadAction.
Qed.

Lemma createAlbums_ok existing entries :
  forall index items0 cols0 s items cols,
  result (createAlbums existing entries index items0 cols0 s)
    = Ok (items, cols) ->
  exists cs,
    Created existing (world s) entries cs
      (world (final (createAlbums existing entries index items0 cols0 s)))
    /\ cols = cols0 ++ cs
    /\ map pairOf items = map pairOf items0 ++ groupPairs entries cs
    /\ map localID items
         = map localID items0
           ++ seq index (length items - length items0)
    /\ length items0 <= length items
    /\ events (createAlbums existing entries index items0 cols0 s)
         = map (fun e => CreateAlbum (fst e) existing) entries.
Proof.
  induction entries as [|[collectionName files] rest IH];
    intros index items0 cols0 s items cols Hres.
  - simpl in *. injection Hres as <- <-. exists [].
    rewrite Nat.sub_diag, !app_nil_r. repeat split; auto. constructor.
  - cbn [createAlbums] in *. unfold call in *.
    rewrite bind_run in *.
    destruct (createAlbum collectionName existing (world s))
      as [[c|e] w1] eqn:Hcall; cbn [events final result] in *;
      [| discriminate].
    rewrite bind_run in *.
    destruct files as [files|]; cbn [deref ret throw events final result] in *;
      [| discriminate].
    destruct (IH _ _ _ _ _ _ Hres)
      as (cs & Hcs & Hcols & Hpairs & Hids & Hlen & Hev).
    exists (c :: cs).
    rewrite length_app, map_indexed_length in Hlen.
    repeat split.
    + econstructor; [exact Hcall | exact Hcs].
    + now rewrite Hcols, <- app_assoc.
    + rewrite Hpairs, map_app, map_indexed_pairOf, <- app_assoc.
      reflexivity.
    + rewrite Hids, map_app, map_indexed_localID, <- app_assoc, <- seq_app.
      rewrite length_app, map_indexed_length.
      f_equal. f_equal. lia.
    + lia.
    + simpl. now rewrite Hev.
Qed.

Lemma createAlbums_events existing entries :
  forall index items0 cols0 s,
  exists k,
    events (createAlbums existing entries index items0 cols0 s)
      = map (fun e => CreateAlbum (fst e) existing) (firstn k entries).
Proof.
  induction entries as [|[collectionName files] rest IH];
    intros index items0 cols0 s.
  - exists 0. reflexivity.
  - cbn [createAlbums]. unfold call. rewrite bind_run.
    destruct (createAlbum collectionName existing (world s))
      as [[c|e] w1]; cbn [events final result];
      [| exists 1; reflexivity].
    rewrite bind_run.
    destruct files as [files|]; cbn [deref ret throw events final result];
      [| exists 1; reflexivity].
    match goal with
    | |- context [createAlbums existing rest ?i ?a ?b ?s'] =>
        destruct (IH i a b s') as [k Hk]
    end.
    exists (S k). simpl. now rewrite Hk.
Qed.

Lemma Silent_createAlbums p existing entries index items0 cols0 :
  (forall n ex, p (CreateAlbum n ex) = false) ->
  Silent p (createAlbums existing entries index items0 cols0).
Proof.
  intros Hp s.
  destruct (createAlbums_events existing entries index items0 cols0 s)
    as [k ->].
  induction (firstn k entries) as [|e l IH]; simpl; [reflexivity|].
  now rewrite Hp.
Qed.

Lemma Silent_groupingPass p m :
  p SyncCollections = false ->
  (forall n ex, p (CreateAlbum n ex) = false) ->
  Silent p (groupingPass m).
Proof.
  intros H1 H2. unfold groupingPass.
  apply Silent_bind; [now apply Silent_call | intros existing].
  now apply Silent_createAlbums.
Qed.

Lemma newCollections_preUploadAction_throws strategy collectionName s e :
  result (preUploadAction s) = Throw e ->
  uploadFilesToNewCollections strategy collectionName s
  = mkRun
      (events (preUploadAction s)
       ++ [LogError e "Failed to upload files to new collections"])
      (final (preUploadAction s)) (Ok tt).
Proof.
  intros Hpre. unfold uploadFilesToNewCollections, try_catch.
  rewrite bind_run, Hpre. reflexivity.
Qed.

Lemma newCollections_map_throws strategy collectionName s e :
  result (preUploadAction s) = Ok tt ->
  collectionNameToFilesMap strategy collectionName
    (toUploadFiles (final (preUploadAction s))) = Throw e ->
  uploadFilesToNewCollections strategy collectionName s
  = mkRun
      (events (preUploadAction s)
       ++ [LogError e "Failed to upload files to new collections"])
      (final (preUploadAction s)) (Ok tt).
Proof.
  intros Hpre Hmap. unfold uploadFilesToNewCollections, try_catch.
  rewrite bind_run, Hpre. cbn [events final result].
  rewrite bind_run. cbn [gets events final result app].
  rewrite bind_run, Hmap. cbn [lift throw events final result app].
  unfold logError, emit. rewrite app_nil_r. reflexivity.
Qed.

Lemma newCollections_grouping_throws strategy collectionName s m e :
  result (preUploadAction s) = Ok tt ->
  collectionNameToFilesMap strategy collectionName
    (toUploadFiles (final (preUploadAction s))) = Ok m ->
  result (groupingPass m (final (preUploadAction s))) = Throw e ->
  uploadFilesToNewCollections strategy collectionName s
  = mkRun
      (events (preUploadAction s)
       ++ events (groupingPass m (final (preUploadAction s)))
       ++ [LogError e "Failed to create album";
           SetDialogMessage CreateAlbumFailedDialog;
           LogError e "Failed to upload files to new collections"])
      (setUploadProgressView_ false
         (final (groupingPass m (final (preUploadAction s)))))
      (Ok tt).
Proof.
  intros Hpre Hmap Hg. unfold uploadFilesToNewCollections, try_catch.
  rewrite bind_run, Hpre. cbn [events final result].
  rewrite bind_run. cbn [gets events final result app].
  rewrite bind_run, Hmap. cbn [lift ret events final result app].
  rewrite bind_run. unfold guardedGroupingPass, try_catch.
  rewrite Hg. cbn [events final result].
  unfold closeUploadProgress, logError, emit, modify, throw.
  rewrite !bind_run. cbn [events final result app].
  rewrite <- !app_assoc. reflexivity.
Qed.

Lemma newCollections_grouping_ok strategy collectionName s m items collections :
  result (preUploadAction s) = Ok tt ->
  collectionNameToFilesMap strategy collectionName
    (toUploadFiles (final (preUploadAction s))) = Ok m ->
  result (groupingPass m (final (preUploadAction s)))
    = Ok (items, collections) ->
  let g := groupingPass m (final (preUploadAction s)) in
  let u := uploadFiles items collections (final g) in
  uploadFilesToNewCollections strategy collectionName s
  = mkRun
      (events (preUploadAction s) ++ events g ++ events u
       ++ match result u with
          | Ok _ => []
          | Throw e => [LogError e "Failed to upload files to new collections"]
          end)
      (final u) (Ok tt).
Proof.
  intros Hpre Hmap Hg g u. unfold uploadFilesToNewCollections, try_catch.
  rewrite bind_run, Hpre. cbn [events final result].
  rewrite bind_run. cbn [gets events final result app].
  rewrite bind_run, Hmap. cbn [lift ret events final result app].
  rewrite bind_run. unfold guardedGroupingPass, try_catch.
  subst u g. rewrite Hg. cbn [events final result fst snd].
  rewrite ?Hg. cbn [events final result fst snd].
  match goal with |- context [result ?u] => destruct (result u) as [[]|e] end;
    cbn [events final result];
    unfold logError, emit; cbn [events final result];
    rewrite <- ?app_assoc, ?app_nil_r; reflexivity.
Qed.
Lemma Keeps_preUploadAction {B} (f : St W -> B) :
  (forall b s, f (setUploadProgressView_ b s) = f s) ->
  (forall b s, f (set_uploadInProgress b s) = f s) ->
  (forall w s, f (set_world w s) = f s) ->
  Keeps f preUploadAction.
Proof.
  intros. unfold preUploadAction, props_setUploadInProgress. keeps.
Qed.

Lemma groupingPass_ok m s items collections :
  result (groupingPass m s) = Ok (items, collections) ->
  exists existing w,
    syncCollections (world s) = (Ok existing, w)
    /\ Created existing w (JsMap.entries m) collections
         (world (final (groupingPass m s)))
    /\ map pairOf items = groupPairs (JsMap.entries m) collections
    /\ map localID items = seq 0 (length items)
    /\ events (groupingPass m s)
         = SyncCollections
           :: map (fun e => CreateAlbum (fst e) existing) (JsMap.entries m).
Proof.
  unfold groupingPass, call. rewrite bind_run.
  destruct (syncCollections (world s)) as [[existing|e] w] eqn:Hsync;
    cbn [events final result]; [| discriminate].
  intros Hres.
  destruct (createAlbums_ok _ _ _ _ _ _ Hres)
    as (cs & Hcs & Hcols & Hpairs & Hids & _ & Hev).
  simpl in Hcols, Hpairs, Hids. subst cs. rewrite Nat.sub_0_r in Hids.
  exists existing, w. repeat split; auto.
  simpl. now rewrite Hev.
Qed.

Lemma uploadFiles_queued items collections s e :
  In e (events (uploadFiles items collections s)) ->
  is_queueFilesForUpload e = true ->
  e = QueueFilesForUpload items collections.
Proof.
  intros Hin He.
  destruct (uploadFiles_run items collections s) as (Hev & _).
  rewrite Hev in Hin. clear Hev.
  apply in_app_or in Hin as [Hin | Hin].
  - revert Hin. unfold uploadFiles_try.
    rewrite bind_run. cbn [gets events final result app].
    rewrite bind_run.
    match goal with
    | |- context [(if ?b then ?c else ret tt) s] =>
        assert (Hsil : Silent is_queueFilesForUpload (if b then c else ret tt))
    end.
    { destruct (isElectron && negb (isPendingDesktopUpload s));
        [| apply Silent_ret].
      apply Silent_bind; [now apply Silent_call | intros _].
      apply Silent_bind; [apply Silent_gets | intros zips].
      apply Silent_bind; [| intros _; now apply Silent_call].
      destruct zips; [| apply Silent_ret].
      apply Silent_bind; [now apply Silent_call | intros _].
      apply Silent_modify. }
    match goal with
    | |- context [result (?c s)] =>
        pose proof (@Silent_not_In _ _ _ c s e Hsil He) as Hnot;
        destruct (result (c s)); cbn [events final result]
    end.
    + unfold call.
      match goal with
      | |- context [queueFilesForUpload ?i ?c ?w] =>
          destruct (queueFilesForUpload i c w)
      end.
      cbn [events]. intros Hin. apply in_app_or in Hin as [Hin | [<- | []]];
        [contradiction | reflexivity].
    + intros Hin. contradiction.
  - apply in_app_or in Hin as [Hin | Hin].
    + destruct (result (uploadFiles_try items collections s)) as [|err];
        [destruct Hin |].
      destruct (showUserFacingError_run (message err)
                  (final (uploadFiles_try items collections s)))
        as [shown [Hrun Hshown]].
      rewrite Hrun in Hin. destruct Hin as [<- | []].
      destruct shown; discriminate.
    + destruct Hin as [<- | [<- | []]]; discriminate.
Qed.

Lemma Silent_preUploadAction_queue :
  Silent is_queueFilesForUpload (preUploadAction (W := W)).
Proof. now apply Silent_preUploadAction. Qed.

Lemma newCollections_queued strategy collectionName s items collections :
  In (QueueFilesForUpload items collections)
     (events (uploadFilesToNewCollections strategy collectionName s)) ->
  exists m,
    result (preUploadAction s) = Ok tt
    /\ collectionNameToFilesMap strategy collectionName
         (toUploadFiles (final (preUploadAction s))) = Ok m
    /\ result (groupingPass m (final (preUploadAction s)))
       = Ok (items, collections).
Proof.
  intros Hin.
  assert (Hpre : ~ In (QueueFilesForUpload items collections)
                   (events (preUploadAction s))).
  { apply Silent_not_In with (p := is_queueFilesForUpload);
      [apply Silent_preUploadAction_queue | reflexivity]. }
  destruct (result (preUploadAction s)) as [[]|e] eqn:Hres.
  2:{ rewrite (newCollections_preUploadAction_throws _ _ _ Hres) in Hin.
      cbn [events] in Hin.
      apply in_app_or in Hin as [Hin | [Hin | []]];
        [contradiction | discriminate]. }
  destruct (collectionNameToFilesMap strategy collectionName
              (toUploadFiles (final (preUploadAction s))))
    as [m|e] eqn:Hmap.
  2:{ rewrite (newCollections_map_throws _ _ _ Hres Hmap) in Hin.
      cbn [events] in Hin.
      apply in_app_or in Hin as [Hin | [Hin | []]];
        [contradiction | discriminate]. }
  exists m. repeat split.
  assert (Hg : ~ In (QueueFilesForUpload items collections)
                 (events (groupingPass m (final (preUploadAction s))))).
  { apply Silent_not_In with (p := is_queueFilesForUpload);
      [now apply Silent_groupingPass | reflexivity]. }
  destruct (result (groupingPass m (final (preUploadAction s))))
    as [[items' collections']|e] eqn:Hgr.
  2:{ rewrite (newCollections_grouping_throws _ _ _ Hres Hmap Hgr) in Hin.
      cbn [events] in Hin.
      apply in_app_or in Hin as [Hin | Hin]; [contradiction |].
      apply in_app_or in Hin as [Hin | Hin]; [contradiction |].
      destruct Hin as [Hin | [Hin | [Hin | []]]]; discriminate. }
  rewrite (newCollections_grouping_ok _ _ _ Hres Hmap Hgr) in Hin.
  cbn [events] in Hin.
  apply in_app_or in Hin as [Hin | Hin]; [contradiction |].
  apply in_app_or in Hin as [Hin | Hin]; [contradiction |].
  apply in_app_or in Hin as [Hin | Hin].
  - apply uploadFiles_queued in Hin; [| reflexivity].
    now injection Hin as -> ->.
  - destruct (result (uploadFiles items' collections' _)); [destruct Hin|].
    destruct Hin as [Hin | []]; discriminate.
Qed.

Lemma existingCollection_queued collection s items collections :
  In (QueueFilesForUpload items collections)
     (events (uploadFilesToExistingCollection collection s)) ->
  exists files,
    toUploadFiles (final (preUploadAction s)) = Some files
    /\ items = existingCollectionBatch files collection
    /\ collections = [collection].
Proof.
  unfold uploadFilesToExistingCollection, try_catch.
  assert (Hpre : ~ In (QueueFilesForUpload items collections)
                   (events (preUploadAction s))).
  { apply Silent_not_In with (p := is_queueFilesForUpload);
      [apply Silent_preUploadAction_queue | reflexivity]. }
  rewrite bind_run.
  destruct (result (preUploadAction s)) as [[]|e]; cbn [events final result].
  2:{ intros Hin. unfold logError, emit in Hin.
      rewrite ?in_app_iff in Hin. cbn [events In] in Hin.
      intuition; discriminate. }
  rewrite bind_run. cbn [gets events final result app].
  rewrite bind_run.
  destruct (toUploadFiles (final (preUploadAction s))) as [files|];
    cbn [deref ret throw events final result app].
  2:{ intros Hin. unfold logError, emit in Hin.
      rewrite ?in_app_iff in Hin. cbn [events In] in Hin.
      intuition; discriminate. }
  intros Hin. exists files. split; [reflexivity|].
  assert (Hu : In (QueueFilesForUpload items collections)
                 (events (uploadFiles (existingCollectionBatch files collection)
                            [collection] (final (preUploadAction s))))).
  { destruct (result (uploadFiles _ _ _)); cbn [events] in Hin.
    - apply in_app_or in Hin as [Hin | Hin]; [contradiction | exact Hin].
    - apply in_app_or in Hin as [Hin | Hin].
      + apply in_app_or in Hin as [Hin | Hin]; [contradiction | exact Hin].
      + destruct Hin as [Hin | []]; discriminate. }
  apply uploadFiles_queued in Hu; [| reflexivity].
  now injection Hu as -> ->.
Qed.

Lemma createAlbumCalls_app l1 l2 :
  createAlbumCalls (l1 ++ l2) = createAlbumCalls l1 ++ createAlbumCalls l2.
Proof.
  induction l1 as [|e l1 IH]; simpl; [reflexivity|].
  destruct e; simpl; now rewrite ?IH.
Qed.

Lemma createAlbumCalls_silent l :
  filter is_createAlbum l = [] -> createAlbumCalls l = [].
Proof.
  induction l as [|e l IH]; simpl; [reflexivity|].
  destruct e; simpl; auto; discriminate.
Qed.

Lemma createAlbumCalls_map existing
    (entries : list (option string * option (list AnyFile))) :
  createAlbumCalls (map (fun e => CreateAlbum (fst e) existing) entries)
  = map fst entries.
Proof. induction entries; simpl; [|rewrite IHentries]; reflexivity. Qed.

Lemma Keeps_showUserFacingError {B} (f : St W -> B) err :
  Keeps f (showUserFacingError err).
Proof.
  intros s. destruct (showUserFacingError_run err s) as [e [-> _]].
  reflexivity.
Qed.

Lemma Keeps_postUploadAction {B} (f : St W -> B) :
  NotWrittenByUpload f -> Keeps f postUploadAction.
Proof.
  intros (_ & ? & _ & ?).
  unfold postUploadAction, props_setUploadInProgress. keeps.
Qed.

Lemma Keeps_uploadFiles {B} (f : St W -> B) items collections :
  NotWrittenByUpload f -> Keeps f (uploadFiles items collections).
Proof.
  intros (? & ? & ? & ?).
  unfold uploadFiles, uploadFiles_try, postUploadAction,
    props_setUploadInProgress, closeUploadProgress.
  keeps. apply Keeps_showUserFacingError.
Qed.

Lemma Keeps_createAlbums {B} (f : St W -> B) existing entries :
  (forall w s, f (set_world w s) = f s) ->
  forall index items0 cols0,
  Keeps f (createAlbums existing entries index items0 cols0).
Proof.
  intros Hw. induction entries as [|[n files] rest IH]; intros; simpl.
  - apply Keeps_ret.
  - apply Keeps_bind; [now apply Keeps_call | intros c].
    apply Keeps_bind; [apply Keeps_deref | intros fs]. apply IH.
Qed.

Lemma Keeps_uploadFilesToNewCollections {B} (f : St W -> B)
    strategy collectionName :
  NotWrittenByUpload f ->
  Keeps f (uploadFilesToNewCollections strategy collectionName).
Proof.
  intros Hf. pose proof Hf as (H1 & H2 & H3 & H4).
  unfold uploadFilesToNewCollections.
  apply Keeps_try_catch; [| intros e; apply Keeps_emit].
  apply Keeps_bind; [now apply Keeps_preUploadAction | intros _].
  apply Keeps_bind; [apply Keeps_gets | intros current].
  apply Keeps_bind; [apply Keeps_lift | intros m].
  apply Keeps_bind; [| intros batch; now apply Keeps_uploadFiles].
  unfold guardedGroupingPass. apply Keeps_try_catch.
  - unfold groupingPass.
    apply Keeps_bind; [now apply Keeps_call | intros existing].
    now apply Keeps_createAlbums.
  - intros e.
    apply Keeps_bind; [apply Keeps_modify; auto | intros _].
    apply Keeps_bind; [apply Keeps_emit | intros _].
    apply Keeps_bind; [apply Keeps_emit | intros _]. apply Keeps_throw.
Qed.

Lemma newCollections_resolves strategy collectionName s :
  result (uploadFilesToNewCollections strategy collectionName s) = Ok tt.
Proof.
  unfold uploadFilesToNewCollections, try_catch.
  match goal with
  | |- context [result (?c s)] => destruct (result (c s)) as [[]|e] eqn:H
  end.
  - exact H.
  - reflexivity.
Qed.

Lemma newCollections_createAlbum strategy collectionName s n existing :
  In (CreateAlbum n existing)
     (events (uploadFilesToNewCollections strategy collectionName s)) ->
  exists m,
    collectionNameToFilesMap strategy collectionName (toUploadFiles s) = Ok m
    /\ In n (JsMap.keys m).
Proof.
  intros Hin.
  assert (Hpre : ~ In (CreateAlbum n existing) (events (preUploadAction s))).
  { apply Silent_not_In with (p := is_createAlbum);
      [now apply Silent_preUploadAction | reflexivity]. }
  destruct (result (preUploadAction s)) as [[]|e] eqn:Hres.
  2:{ rewrite (newCollections_preUploadAction_throws _ _ _ Hres) in Hin.
      cbn [events] in Hin. rewrite ?in_app_iff in Hin. cbn [In] in Hin.
      intuition; discriminate. }
  destruct (collectionNameToFilesMap strategy collectionName
              (toUploadFiles (final (preUploadAction s))))
    as [m|e] eqn:Hmap.
  2:{ rewrite (newCollections_map_throws _ _ _ Hres Hmap) in Hin.
      cbn [events] in Hin. rewrite ?in_app_iff in Hin. cbn [In] in Hin.
      intuition; discriminate. }
  exists m. split.
  { now rewrite (Keeps_preUploadAction (@toUploadFiles W)) in Hmap
      by reflexivity. }
  assert (Hg : In (CreateAlbum n existing)
                 (events (groupingPass m (final (preUploadAction s))))).
  { destruct (result (groupingPass m (final (preUploadAction s))))
      as [[items collections]|e] eqn:Hgr.
    - rewrite (newCollections_grouping_ok _ _ _ Hres Hmap Hgr) in Hin.
      cbn [events] in Hin. rewrite ?in_app_iff in Hin.
      destruct Hin as [Hin | [Hin | [Hin | Hin]]];
        [contradiction | exact Hin | |].
      + exfalso. revert Hin.
        apply Silent_not_In with (p := is_createAlbum); [| reflexivity].
        apply Silent_uploadFiles; try reflexivity. now intros [].
      + destruct (result (uploadFiles _ _ _)); [destruct Hin |].
        destruct Hin as [Hin | []]; discriminate.
    - rewrite (newCollections_grouping_throws _ _ _ Hres Hmap Hgr) in Hin.
      cbn [events] in Hin. rewrite ?in_app_iff in Hin. cbn [In] in Hin.
      intuition; discriminate. }
  unfold groupingPass, call in Hg. rewrite bind_run in Hg.
  destruct (syncCollections _) as [[ex|e] w];
    cbn [events final result app] in Hg.
  2:{ destruct Hg as [Hg | []]; discriminate. }
  destruct Hg as [Hg | Hg]; [discriminate |].
  match type of Hg with
  | In _ (events (createAlbums ?ex ?en ?i ?a ?b ?s')) =>
      destruct (createAlbums_events ex en i a b s') as [k Hk]
  end.
  rewrite Hk in Hg. apply in_map_iff in Hg as [entry [Heq Hentry]].
  injection Heq as <- _. unfold JsMap.keys. apply in_map.
  rewrite <- (firstn_skipn k (JsMap.entries m)). apply in_or_app. now left.
Qed.
Lemma uploadFilesToNewCollections_calls strategy collectionName :
  Silent (fun e => negb (madeByUpload e))
    (uploadFilesToNewCollections strategy collectionName).
Proof.
  unfold uploadFilesToNewCollections.
  apply Silent_try_catch; [| intros e; now apply Silent_emit].
  apply Silent_bind; [now apply Silent_preUploadAction | intros _].
  apply Silent_bind; [apply Silent_gets | intros current].
  apply Silent_bind; [apply Silent_lift | intros m].
  apply Silent_bind.
  - unfold guardedGroupingPass. apply Silent_try_catch.
    + now apply Silent_groupingPass.
    + intros e.
      apply Silent_bind; [apply Silent_modify | intros _].
      apply Silent_bind; [now apply Silent_emit | intros _].
      apply Silent_bind; [now apply Silent_emit | intros _].
      apply Silent_throw.
  - intros batch. apply Silent_uploadFiles; try reflexivity.
    now intros [].
Qed.

(** ** Uploads that are started and not awaited *)

Lemma newCollections_split strategy collectionName s :
  let p := preUploadAction s in
  let q := uploadFilesToNewCollections_resumed strategy collectionName
             (result p) (final p) in
  uploadFilesToNewCollections strategy collectionName s
  = mkRun (events p ++ events q) (final q) (result q).
Proof.
  cbv zeta.
  unfold uploadFilesToNewCollections, uploadFilesToNewCollections_resumed,
    try_catch.
  rewrite (bind_run preUploadAction).
  destruct (preUploadAction s) as [ev s1 [[]|e]];
    cbn [events final result lift].
  - rewrite bind_ret.
    match goal with
    | |- context [result (?c s1)] => destruct (c s1) as [ev' s2 [[]|e']]
    end; cbn [events final result]; [reflexivity |].
    now rewrite app_assoc.
  - rewrite (bind_run (throw e)). cbn [throw events final result].
    reflexivity.
Qed.

Lemma started_whole strategy collectionName s :
  task (uploadFilesToNewCollections_started strategy collectionName) s
  = unawaited (uploadFilesToNewCollections strategy collectionName) s.
Proof.
  unfold uploadFilesToNewCollections_started, unawaited.
  now rewrite task_start, newCollections_split.
Qed.



(** ** The effects *)







Lemma filesArrivedEffect_of_uploading rendered s :
  uploadInProgress rendered = true ->
  filesArrivedEffect_of rendered s = mkRun [] s (Ok []).
Proof.
  intros H. unfold filesArrivedEffect_of. rewrite H.
  now destruct (nonEmpty _ || nonEmpty _ || nonEmpty _).
Qed.


(** ** The page starts *)

Lemma sameFiles_refl x : sameFiles x x = true.
Proof. unfold sameFiles. now destruct (files_eq_dec x x). Qed.









End UploaderFacts.

(** * The properties *)

Section Claims.
Context {W : Type} {env : ImportEnv W} {uploadManager : UploadManagerOps W}
        {browser : Browser W} {customError : CustomError.t}.
Implicit Type s : St W.

Lemma showUserFacingError_Surfaced err s :
  CustomError.SUBSCRIPTION_EXPIRED <> CustomError.SESSION_EXPIRED ->
  CustomError.STORAGE_QUOTA_EXCEEDED <> CustomError.SESSION_EXPIRED ->
  CustomError.STORAGE_QUOTA_EXCEEDED <> CustomError.SUBSCRIPTION_EXPIRED ->
  Surfaced err (events (showUserFacingError err s)).
Proof.
  intros H21 H31 H32. unfold Surfaced, showUserFacingError.
  repeat split.
  - intros ->. now rewrite String.eqb_refl.
  - intros ->. apply String.eqb_neq in H21. rewrite H21.
    simpl. now rewrite String.eqb_refl.
  - intros ->. apply String.eqb_neq in H31, H32. rewrite H31.
    simpl. now rewrite H32, String.eqb_refl.
  - intros H1 H2 H3. apply String.eqb_neq in H1, H2, H3.
    rewrite H1. simpl. now rewrite H2, H3.
Qed.

(** C10: [uploadFiles] and [retryFailed] run [postUploadAction] as their
    last step however their [try] block ends, whether the queueing call
    resolves or rejects: the last two calls they make are
    [setUploadInProgress(false)] and [syncWithRemote()], and the
    upload-in-progress flag is false afterwards. [uploadFiles] passes on
    the outcome of its [try] block, [retryFailed] always resolves. *)
Theorem uploadFiles_retryFailed_postUploadAction items collections s :
  (exists before,
     events (uploadFiles items collections s)
       = before ++ [SetUploadInProgress false; SyncWithRemote None None])
  /\ uploadInProgress (final (uploadFiles items collections s)) = false
  /\ result (uploadFiles items collections s)
       = result (uploadFiles_try items collections s)
  /\ (exists before,
        events (retryFailed s)
          = before ++ [SetUploadInProgress false; SyncWithRemote None None])
  /\ uploadInProgress (final (retryFailed s)) = false
  /\ result (retryFailed s) = Ok tt.
Proof.
  destruct (uploadFiles_run items collections s) as (Hev & Hres & Hflag).
  destruct (retryFailed_run s) as (Hev' & Hres' & Hflag').
  repeat split; auto.
  - rewrite Hev, app_assoc. eauto.
  - rewrite Hev', app_assoc. eauto.
Qed.

(** C6: when the [try] block of [uploadFiles] (the queueing call
    [queueFilesForUpload]) or of [retryFailed] ([retryFailedFiles]) ends
    with an error, exactly one user-facing notification is made, the one
    that matches the error's message: the session-expired message for
    [SESSION_EXPIRED], a danger notification with the upgrade action for
    [SUBSCRIPTION_EXPIRED], a danger notification with the renew action
    for [STORAGE_QUOTA_EXCEEDED], the unknown-error notification for
    anything else. The three enum members are taken to be distinct. *)
Theorem escalated_error_surfaced_once items collections s :
  CustomError.SUBSCRIPTION_EXPIRED <> CustomError.SESSION_EXPIRED ->
  CustomError.STORAGE_QUOTA_EXCEEDED <> CustomError.SESSION_EXPIRED ->
  CustomError.STORAGE_QUOTA_EXCEEDED <> CustomError.SUBSCRIPTION_EXPIRED ->
  (forall err,
     result (uploadFiles_try items collections s) = Throw err ->
     Surfaced (message err)
       (filter is_userFacing (events (uploadFiles items collections s))))
  /\ (forall err,
        result (retryFailed_try s) = Throw err ->
        Surfaced (message err)
          (filter is_userFacing (events (retryFailed s)))).
Proof.
  intros H21 H31 H32. split; intros err Herr.
  - destruct (uploadFiles_run items collections s) as (Hev & _).
    rewrite Hev, Herr, !filter_app.
    rewrite (Silent_uploadFiles_try is_userFacing items collections)
      by reflexivity.
    destruct (showUserFacingError_run (message err)
                (final (uploadFiles_try items collections s)))
      as [shown [Hrun Hshown]].
    pose proof (showUserFacingError_Surfaced (message err)
                  (final (uploadFiles_try items collections s)) H21 H31 H32)
      as HS.
    rewrite Hrun in *. simpl in *. rewrite Hshown. exact HS.
  - destruct (retryFailed_run s) as (Hev & _).
    rewrite Hev, Herr, !filter_app.
    rewrite (Silent_retryFailed_try is_userFacing); try reflexivity.
    destruct (showUserFacingError_run (message err)
                (final (retryFailed_try s)))
      as [shown [Hrun Hshown]].
    pose proof (showUserFacingError_Surfaced (message err)
                  (final (retryFailed_try s)) H21 H31 H32) as HS.
    rewrite Hrun in *. simpl in *. rewrite Hshown. exact HS.
Qed.

Lemma filesArrivedEffect_uploading s :
  uploadInProgress s = true -> task filesArrivedEffect s = mkRun [] s (Ok tt).
Proof.
  intros H. rewrite task_run. unfold filesArrivedEffect.
  now rewrite filesArrivedEffect_of_uploading.
Qed.

Lemma In_bind {A B} (c : M A) (k : A -> M B) s e :
  In e (events (c s)) -> In e (events (bind c k s)).
Proof.
  intros H. rewrite bind_run. destruct (result (c s)); cbn [events];
    [apply in_or_app; now left | exact H].
Qed.

Lemma In_try_catch {A} (c : M A) (h : JsError -> M A) s e :
  In e (events (c s)) -> In e (events (try_catch c h s)).
Proof.
  intros H. unfold try_catch. destruct (result (c s)); cbn [events];
    [exact H | apply in_or_app; now left].
Qed.

Lemma In_try_finally {A} (c : M A) (f : M unit) s e :
  In e (events (c s)) -> In e (events (try_finally c f s)).
Proof.
  intros H. unfold try_finally. cbn [events]. apply in_or_app. now left.
Qed.

Lemma preUploadAction_starts s :
  exists rest,
    events (preUploadAction s)
    = CloseCollectionSelector :: CloseUploadTypeSelector
      :: PrepareForNewUpload :: rest.
Proof.
  unfold preUploadAction, props_setUploadInProgress, call, bind, emit,
    modify.
  cbn [events final result world].
  destruct (prepareForNewUpload (world s)) as [[[]|e] w1];
    cbn [events final result world set_world setUploadProgressView_
         set_uploadInProgress app]; [| eauto].
  destruct (syncWithRemote (Some true) (Some true) w1) as [[[]|e] w2];
    cbn [events app]; eauto.
Qed.

(** C4, as amended: while an upload is in progress, files arriving by any
    of the three routes (web picker, shared files, desktop shell), any
    number of times, start nothing: the effect returns at once, the
    component makes no call at all (so neither [prepareForNewUpload] nor
    [queueFilesForUpload] is called), and the files to upload, the
    outside world and the flag stay as they are. The guard is that
    effect's own: [preUploadAction] does not look at the flag, and
    [retryFailed], [uploadFilesToExistingCollection] and
    [uploadFilesToNewCollections] call [prepareForNewUpload] whenever
    they are called, an upload in progress or not. *)
Theorem arrivals_while_uploading_start_nothing (l : list Arrival) s :
  uploadInProgress s = true ->
  (events (arrivals l s) = []
   /\ result (arrivals l s) = Ok tt
   /\ toUploadFiles (final (arrivals l s)) = toUploadFiles s
   /\ world (final (arrivals l s)) = world s
   /\ uploadInProgress (final (arrivals l s)) = true)
  /\ (forall collection strategy collectionName,
        In PrepareForNewUpload (events (retryFailed s))
        /\ In PrepareForNewUpload
             (events (uploadFilesToExistingCollection collection s))
        /\ In PrepareForNewUpload
             (events (uploadFilesToNewCollections strategy collectionName
                        s))).
Proof.
  intros Hflag. split.
  - revert s Hflag. induction l as [|a rest IH]; intros s H.
    + simpl. auto.
    + assert (Ha : exists s', arrive a s = mkRun [] s' (Ok tt)
                     /\ uploadInProgress s' = true
                     /\ toUploadFiles s' = toUploadFiles s
                     /\ world s' = world s).
      { unfold arrive. rewrite bind_run.
        destruct a; cbn [modify events final result app];
          rewrite filesArrivedEffect_uploading by exact H;
          eexists; (split; [reflexivity | auto]). }
      destruct Ha as (s' & Hrun & Hflag & Hfiles & Hworld).
      simpl. rewrite bind_run, Hrun. cbn [events final result app].
      destruct (IH s' Hflag) as (-> & -> & -> & -> & ->). auto.
  - intros collection strategy collectionName.
    destruct (preUploadAction_starts s) as [rest Hpre].
    assert (Hin : In PrepareForNewUpload (events (preUploadAction s))).
    { rewrite Hpre. cbn [In]. auto. }
    repeat split.
    + unfold retryFailed, retryFailed_try.
      now apply In_try_finally, In_try_catch, In_bind.
    + unfold uploadFilesToExistingCollection.
      now apply In_try_catch, In_bind.
    + rewrite newCollections_split. cbn [events]. apply in_or_app.
      now left.
Qed.

(** C1: when the grouping pass of [uploadFilesToNewCollections] (fetch
    the existing collections, then create an album for each group) fails
    with an error, nothing is uploaded: [queueFilesForUpload] is not
    called, the progress dialog is closed, the one dialog shown is the
    error dialog with the content [CREATE_ALBUM_FAILED], and the handler
    throws the error on, out of the guarded block and into the function's
    own handler, where it is logged a second time (the promise of the
    function itself resolves). *)
Theorem album_creation_failure_aborts_upload
    strategy collectionName s m e :
  result (preUploadAction s) = Ok tt ->
  collectionNameToFilesMap strategy collectionName (toUploadFiles s) = Ok m ->
  result (groupingPass m (final (preUploadAction s))) = Throw e ->
  let r := uploadFilesToNewCollections strategy collectionName s in
  filter is_queueFilesForUpload (events r) = []
  /\ uploadProgressView (final r) = false
  /\ filter is_setDialogMessage (events r)
       = [SetDialogMessage
            (mkDialog constants.ERROR constants.CREATE_ALBUM_FAILED
               (mkButton None None (Some "danger")) None)]
  /\ result (guardedGroupingPass m (final (preUploadAction s))) = Throw e
  /\ filter is_logError (events r)
       = [LogError e "Failed to create album";
          LogError e "Failed to upload files to new collections"]
  /\ result r = Ok tt.
Proof.
  intros Hpre Hmap Hg r.
  rewrite <- (Keeps_preUploadAction (@toUploadFiles W)) in Hmap
    by reflexivity.
  subst r. rewrite (newCollections_grouping_throws _ _ _ Hpre Hmap Hg).
  cbn [events final result]. rewrite !filter_app.
  repeat split.
  - rewrite (Silent_preUploadAction is_queueFilesForUpload) by reflexivity.
    now rewrite (Silent_groupingPass is_queueFilesForUpload).
  - rewrite (Silent_preUploadAction is_setDialogMessage) by reflexivity.
    now rewrite (Silent_groupingPass is_setDialogMessage).
  - unfold guardedGroupingPass, try_catch. rewrite Hg.
    unfold closeUploadProgress, logError, emit, modify, throw.
    now rewrite !bind_run.
  - rewrite (Silent_preUploadAction is_logError) by reflexivity.
    now rewrite (Silent_groupingPass is_logError).
Qed.

(** C2: the [localID]s of a batch are 0, 1, 2, ... in the order of the
    batch, so they are pairwise distinct. This holds for the batch built
    for an existing collection, for the batch the grouping pass builds for
    new collections, and so for every batch either function hands to
    [queueFilesForUpload]. *)
Theorem localIDs_distinct_within_batch :
  (forall files collection,
     let items := existingCollectionBatch files collection in
     map localID items = seq 0 (length items)
     /\ NoDup (map localID items))
  /\ (forall m s items collections,
        result (groupingPass m s) = Ok (items, collections) ->
        map localID items = seq 0 (length items)
        /\ NoDup (map localID items))
  /\ (forall s items collections,
        (exists collection,
           In (QueueFilesForUpload items collections)
              (events (uploadFilesToExistingCollection collection s)))
        \/ (exists strategy collectionName,
              In (QueueFilesForUpload items collections)
                 (events (uploadFilesToNewCollections strategy
                            collectionName s))) ->
        map localID items = seq 0 (length items)
        /\ NoDup (map localID items)).
Proof.
  assert (Hexisting : forall files collection,
            let items := existingCollectionBatch files collection in
            map localID items = seq 0 (length items)).
  { intros files collection. unfold existingCollectionBatch. simpl.
    now rewrite map_indexed_localID, map_indexed_length. }
  assert (Hnew : forall m s items collections,
            result (groupingPass m s) = Ok (items, collections) ->
            map localID items = seq 0 (length items)).
  { intros m s items collections Hres.
    now destruct (groupingPass_ok _ _ Hres) as (? & ? & _ & _ & _ & H & _). }
  repeat split.
  - apply Hexisting.
  - rewrite Hexisting. apply seq_NoDup.
  - eapply Hnew; eassumption.
  - erewrite Hnew by eassumption. apply seq_NoDup.
  - destruct H as [[collection Hin] | (strategy & collectionName & Hin)].
    + apply existingCollection_queued in Hin as (files & _ & -> & _).
      apply Hexisting.
    + apply newCollections_queued in Hin as (m & _ & _ & Hres).
      eapply Hnew; eassumption.
  - destruct H as [[collection Hin] | (strategy & collectionName & Hin)].
    + apply existingCollection_queued in Hin as (files & _ & -> & _).
      rewrite Hexisting. apply seq_NoDup.
    + apply newCollections_queued in Hin as (m & _ & _ & Hres).
      erewrite Hnew by eassumption. apply seq_NoDup.
Qed.

(** C3: for every batch that [uploadFilesToNewCollections] hands to
    [queueFilesForUpload], under either strategy: the existing collections
    were fetched, [createAlbum] was called for the keys of the
    name-to-files map, in the map's order and once each; the collections
    of the batch are what these calls returned, in that order; and the
    items of the batch are, group by group, every file of the group with
    the id of the collection returned for that group. *)
Theorem one_createAlbum_per_group
    strategy collectionName s items collections :
  In (QueueFilesForUpload items collections)
     (events (uploadFilesToNewCollections strategy collectionName s)) ->
  exists m existing w w',
    collectionNameToFilesMap strategy collectionName (toUploadFiles s) = Ok m
    /\ syncCollections (world (final (preUploadAction s))) = (Ok existing, w)
    /\ createAlbumCalls
         (events (uploadFilesToNewCollections strategy collectionName s))
       = JsMap.keys m
    /\ (forall n,
          In n (JsMap.keys m) ->
          count_occ name_eq_dec
            (createAlbumCalls
               (events (uploadFilesToNewCollections strategy
                          collectionName s))) n = 1)
    /\ Created existing w (JsMap.entries m) collections w'
    /\ map pairOf items = groupPairs (JsMap.entries m) collections.
Proof.
  intros Hin.
  destruct (newCollections_queued _ _ _ _ _ Hin) as (m & Hpre & Hmap & Hg).
  destruct (groupingPass_ok _ _ Hg)
    as (existing & w & Hsync & Hcreated & Hpairs & _ & Hev).
  assert (Hcalls :
    createAlbumCalls
      (events (uploadFilesToNewCollections strategy collectionName s))
    = JsMap.keys m).
  { rewrite (newCollections_grouping_ok _ _ _ Hpre Hmap Hg).
    cbn [events]. rewrite !createAlbumCalls_app.
    rewrite (createAlbumCalls_silent (events (preUploadAction s)))
      by now apply Silent_preUploadAction.
    rewrite Hev. cbn [createAlbumCalls]. rewrite createAlbumCalls_map.
    match goal with
    | |- context [events (uploadFiles ?i ?c ?s')] =>
        rewrite (createAlbumCalls_silent (events (uploadFiles i c s')))
    end.
    - destruct (result (uploadFiles _ _ _)); simpl; now rewrite app_nil_r.
    - apply Silent_uploadFiles; try reflexivity. now intros []. }
  rewrite (Keeps_preUploadAction (@toUploadFiles W)) in Hmap by reflexivity.
  exists m, existing, w,
    (world (final (groupingPass m (final (preUploadAction s))))).
  repeat split.
  - exact Hmap.
  - exact Hsync.
  - exact Hcalls.
  - intros n Hn. rewrite Hcalls.
    apply NoDup_count_occ'; [apply JsMap.keys_NoDup | exact Hn].
  - exact Hcreated.
  - exact Hpairs.
Qed.

(** C9: on a first upload whose import suggestion has no root folder name
    and no nested folders (loose files), outside the resume and zip paths,
    the collection selector is handed a "new album" action that uploads to
    a single new collection named "My First Album": every album it asks
    [createAlbum] for carries exactly that name. *)
Theorem first_upload_uses_default_album_name suggestion s :
  isPendingDesktopUpload s = false ->
  isElectron && uploadType_is (uploadType s) ZIPS = false ->
  truthy (rootFolderName suggestion) = false ->
  hasNestedFolders suggestion = false ->
  let next := UploadToSingleNewCollection (Some "My First Album") in
  events (handleCollectionCreationAndUpload suggestion true s)
    = [SetCollectionSelectorAttributes
         (mkSelectorAttributes cb_uploadFilesToExistingCollection next
            constants.UPLOAD_TO_COLLECTION)]
  /\ (forall s',
        runNextModal next s'
        = unawaited
            (uploadFilesToNewCollections SINGLE_COLLECTION
               (Some "My First Album")) s')
  /\ (forall s' n existing,
        In (CreateAlbum n existing) (events (runNextModal next s')) ->
        n = Some "My First Album").
Proof.
  intros Hpending Hzips Hroot Hnested next. repeat split.
  - unfold handleCollectionCreationAndUpload.
    rewrite bind_run. cbn [gets events final result app]. rewrite Hpending.
    rewrite bind_run. cbn [gets events final result app]. rewrite Hzips.
    rewrite Hroot, Hnested. reflexivity.
  - intros s'. apply started_whole.
  - intros s' n existing Hin.
    change (runNextModal next s')
      with (task (uploadFilesToNewCollections_started SINGLE_COLLECTION
                    (Some "My First Album")) s') in Hin.
    rewrite started_whole in Hin.
    apply newCollections_createAlbum in Hin as (m & Hm & Hn).
    injection Hm as <-. destruct Hn as [<- | []]. reflexivity.
Qed.


End Claims.

(** ** Properties that speak about the upload manager's state *)

Section WorldClaims.
Context {E : Type} {outer : ImportEnv E} {customError : CustomError.t}.

Lemma outsideCall_manager {A} (op : E -> Res A * E) (w : World E) :
  manager (snd (outsideCall op w)) = manager w.
Proof. unfold outsideCall. now destruct (op (outside w)). Qed.

(** C8: [cancelUploads] closes the progress dialog, on the desktop (and
    only there) asks the import service to cancel the remaining uploads,
    sets the upload-in-progress flag to false and reloads the page. With
    the page, the upload manager is created anew: nothing is left enqueued
    for it to dequeue, and its batch state is empty. *)
Theorem cancelUploads_stops_and_clears (s : St (World E)) :
  let r := cancelUploads s in
  events r
    = (if isElectron (W := E) then [CancelRemainingUploads] else [])
      ++ [SetUploadInProgress false; RouterReload]
  /\ UploadManager.remaining (manager (world (final r))) = []
  /\ UploadManager.batch (manager (world (final r)))
     = UploadManager.emptyBatch
  /\ uploadInProgress (final r) = false
  /\ uploadProgressView (final r) = false
  /\ result r = Ok tt.
Proof.
  unfold cancelUploads, closeUploadProgress, props_setUploadInProgress.
  cbv zeta. rewrite bind_modify.
  cbn [isElectron ImportEnv_World].
  destruct (isElectron (W := E)).
  - rewrite bind_unawaited. unfold call.
    destruct (cancelRemainingUploads _) as [res w'].
    cbn [events final result]. rewrite bind_assoc, bind_emit, bind_modify.
    rewrite bind_emit. cbn [modify events final result].
    repeat split; reflexivity.
  - rewrite bind_ret, bind_assoc, bind_emit, bind_modify, bind_emit.
    cbn [modify events final result]. repeat split; reflexivity.
Qed.

(** C5, as amended: with no failed item recorded, [retryFailedFiles]
    by itself leaves the upload manager as it is, counters included. The
    component's [retryFailed] first runs [preUploadAction], whose
    [prepareForNewUpload] resets the batch state, so after [retryFailed]
    the counters are both zero, whatever they were. *)
Theorem retryFailed_without_failed_items
    (pipeline : UploadManager.Manager -> Res unit * UploadManager.Manager)
    (s : St (World E)) :
  let uploadManager := UploadManagerOps_World pipeline in
  UploadManager.failed (UploadManager.batch (manager (world s))) = [] ->
  retryFailedFiles (world s) = (Ok tt, world s)
  /\ counters (world (final (retryFailed s))) = (0, 0).
Proof.
  intros uploadManager Hfailed. split.
  - cbn [retryFailedFiles uploadManager UploadManagerOps_World].
    unfold managerCall, UploadManager.retryFailedFiles. rewrite Hfailed.
    now destruct (world s).
  - assert (Hpost : forall s' : St (World E),
              manager (world (final (postUploadAction s')))
              = manager (world s')).
    { intros s'. unfold postUploadAction, props_setUploadInProgress.
      rewrite bind_assoc, bind_emit, bind_modify. unfold unawaited, call.
      cbn [events final result syncWithRemote ImportEnv_World world
           set_uploadInProgress].
      match goal with
      | |- context [outsideCall ?op ?w] =>
          pose proof (outsideCall_manager op w) as Hm;
          destruct (outsideCall op w)
      end.
      exact Hm. }
    assert (Htry : UploadManager.batch
                     (manager (world (final (retryFailed_try s))))
                   = UploadManager.emptyBatch).
    { unfold retryFailed_try, preUploadAction, props_setUploadInProgress.
      unfold call, bind, emit, modify. simpl.
      unfold outsideCall. simpl.
      destruct (syncWithRemote (Some true) (Some true) (outside (world s)))
        as [[[]|e] o]; simpl; reflexivity. }
    destruct (retryFailed_run s) as (_ & _ & _).
    unfold retryFailed, try_finally. cbv zeta. cbn [final].
    unfold counters. rewrite Hpost.
    unfold try_catch.
    destruct (result (retryFailed_try s)) as [[]|err].
    + now rewrite Htry.
    + destruct (showUserFacingError_run (message err)
                  (final (retryFailed_try s))) as [shown [Hrun _]].
      rewrite bind_run, Hrun. cbn [events final result closeUploadProgress
        modify world setUploadProgressView_].
      now rewrite Htry.
Qed.
End WorldClaims.

(** * The properties at work on the scripted world *)

Module Runs.
Import Sample.

(** C1 on a run: the server refuses the second album of three files in
    two folders. *)
Lemma album_creation_failure_run :
  let env := importEnv albumBFails in
  let um := manager_of albumBFails in
  let e := mkError "create album failed" in
  (result (preUploadAction (env := env) (uploadManager := um) threePicked)
     = Ok tt
   /\ collectionNameToFilesMap (env := env) COLLECTION_PER_FOLDER None
        (toUploadFiles threePicked) = Ok groupsOfThree
   /\ result (groupingPass (env := env) groupsOfThree
                (final (preUploadAction (env := env) (uploadManager := um)
                          threePicked)))
      = Throw e)
  /\ let r := uploadFilesToNewCollections (env := env) (uploadManager := um)
                (customError := errors) COLLECTION_PER_FOLDER None
                threePicked in
     filter is_queueFilesForUpload (events r) = []
     /\ uploadProgressView (final r) = false
     /\ filter is_setDialogMessage (events r)
        = [SetDialogMessage CreateAlbumFailedDialog]
     /\ result (guardedGroupingPass (env := env) groupsOfThree
                  (final (preUploadAction (env := env) (uploadManager := um)
                            threePicked)))
        = Throw e
     /\ filter is_logError (events r)
        = [LogError e "Failed to create album";
           LogError e "Failed to upload files to new collections"]
     /\ result r = Ok tt.
Proof.
  intros env um e.
  assert (H1 : result (preUploadAction (env := env) (uploadManager := um)
                         threePicked) = Ok tt) by reflexivity.
  assert (H2 : collectionNameToFilesMap (env := env) COLLECTION_PER_FOLDER
                 None (toUploadFiles threePicked) = Ok groupsOfThree)
    by reflexivity.
  assert (H3 : result (groupingPass (env := env) groupsOfThree
                         (final (preUploadAction (env := env)
                                   (uploadManager := um) threePicked)))
               = Throw e) by (vm_compute; reflexivity).
  split; [auto |].
  exact (album_creation_failure_aborts_upload (env := env)
           (uploadManager := um) (customError := errors)
           COLLECTION_PER_FOLDER None threePicked H1 H2 H3).
Defined.
Ltac member := vm_compute; repeat first [left; reflexivity | right].

(** C2 on a run: the three files are queued with the ids 0, 1 and 2. *)
Lemma localIDs_of_three_picked :
  let r := uploadFilesToNewCollections (env := importEnv web)
             (uploadManager := manager_of web) (customError := errors)
             COLLECTION_PER_FOLDER None threePicked in
  In (QueueFilesForUpload batchOfThree albumsOfThree) (events r)
  /\ map localID batchOfThree = seq 0 (length batchOfThree)
  /\ NoDup (map localID batchOfThree).
Proof.
  intros r.
  assert (Hin : In (QueueFilesForUpload batchOfThree albumsOfThree)
                  (events r)) by member.
  split; [exact Hin |].
  apply (proj2 (proj2 (localIDs_distinct_within_batch
                         (env := importEnv web)
                         (uploadManager := manager_of web)
                         (customError := errors)))
           threePicked batchOfThree albumsOfThree).
  right. exists COLLECTION_PER_FOLDER, None. exact Hin.
Defined.

(** C3 on a run: one album for folder A, one for folder B. *)
Lemma albums_of_three_picked :
  let r := uploadFilesToNewCollections (env := importEnv web)
             (uploadManager := manager_of web) (customError := errors)
             COLLECTION_PER_FOLDER None threePicked in
  In (QueueFilesForUpload batchOfThree albumsOfThree) (events r)
  /\ exists m existing w w',
       collectionNameToFilesMap (env := importEnv web)
         COLLECTION_PER_FOLDER None (toUploadFiles threePicked) = Ok m
       /\ syncCollections (ImportEnv := importEnv web)
            (world (final (preUploadAction (env := importEnv web)
                             (uploadManager := manager_of web)
                             threePicked)))
          = (Ok existing, w)
       /\ createAlbumCalls (events r) = JsMap.keys m
       /\ (forall n,
             In n (JsMap.keys m) ->
             count_occ name_eq_dec (createAlbumCalls (events r)) n = 1)
       /\ Created (env := importEnv web) existing w (JsMap.entries m)
            albumsOfThree w'
       /\ map pairOf batchOfThree
          = groupPairs (JsMap.entries m) albumsOfThree.
Proof.
  intros r.
  assert (Hin : In (QueueFilesForUpload batchOfThree albumsOfThree)
                  (events r)) by member.
  split; [exact Hin |].
  exact (one_createAlbum_per_group (env := importEnv web)
           (uploadManager := manager_of web) (customError := errors)
           COLLECTION_PER_FOLDER None threePicked batchOfThree albumsOfThree
           Hin).
Defined.

(** C4 on a run: files of each kind arrive during an upload. *)
Lemma arrivals_during_an_upload :
  let l := [WebFilesArrived [loose1]; SharedFilesArrived [loose2];
            ElectronFilesArrived [ax]] in
  let r := arrivals (env := importEnv web) (uploadManager := manager_of web)
             (customError := errors) l uploading in
  uploadInProgress uploading = true
  /\ (events r = []
      /\ result r = Ok tt
      /\ toUploadFiles (final r) = toUploadFiles uploading
      /\ world (final r) = world uploading
      /\ uploadInProgress (final r) = true)
  /\ (forall collection strategy collectionName,
        In PrepareForNewUpload
          (events (retryFailed (env := importEnv web)
                     (uploadManager := manager_of web)
                     (customError := errors) uploading))
        /\ In PrepareForNewUpload
             (events (uploadFilesToExistingCollection (env := importEnv web)
                        (uploadManager := manager_of web)
                        (customError := errors) collection uploading))
        /\ In PrepareForNewUpload
             (events (uploadFilesToNewCollections (env := importEnv web)
                        (uploadManager := manager_of web)
                        (customError := errors) strategy collectionName
                        uploading))).
Proof.
  intros l r. split; [reflexivity |].
  exact (arrivals_while_uploading_start_nothing (env := importEnv web)
           (uploadManager := manager_of web) (customError := errors)
           l uploading eq_refl).
Defined.

(** C4 as first stated does not hold: an upload is in progress, the user
    asks for the failed files to be retried or picks an album in the
    selector, and [prepareForNewUpload] is called. *)
Lemma prepareForNewUpload_during_an_upload :
  uploadInProgress uploading = true
  /\ In PrepareForNewUpload
       (events (retryFailed (env := importEnv web)
                  (uploadManager := manager_of web) (customError := errors)
                  uploading))
  /\ In PrepareForNewUpload
       (events (uploadFilesToExistingCollection (env := importEnv web)
                  (uploadManager := manager_of web) (customError := errors)
                  album uploading)).
Proof. split; [reflexivity |]. split; member. Qed.

(** C5 on a run: three files are done, none failed, the user retries. *)
Lemma retry_after_three_done :
  let pipeline := UploadManager.sequentialPipeline allUploaded in
  UploadManager.failed (UploadManager.batch (manager (world threeDone))) = []
  /\ retryFailedFiles (UploadManagerOps := UploadManagerOps_World pipeline)
       (world threeDone) = (Ok tt, world threeDone)
  /\ counters
       (world (final (retryFailed (env := importEnv web)
                        (uploadManager := UploadManagerOps_World pipeline)
                        (customError := errors) threeDone)))
     = (0, 0).
Proof.
  intros pipeline. split; [reflexivity |].
  exact (retryFailed_without_failed_items (outer := env web)
           (customError := errors) pipeline threeDone eq_refl).
Defined.

(** C5 as first stated does not hold: nothing has failed, and yet
    [retryFailed] changes the counters, from 3 of 3 to 0 of 0. *)
Lemma retryFailed_changes_the_counters :
  UploadManager.failed (UploadManager.batch (manager (world threeDone))) = []
  /\ counters (world threeDone) = (3, 3)
  /\ counters
       (world (final (retryFailed (env := importEnv web)
                        (uploadManager := manager_of web)
                        (customError := errors) threeDone)))
     <> counters (world threeDone).
Proof.
  split; [reflexivity |]. split; [reflexivity |].
  vm_compute. discriminate.
Qed.

(** C6 on a run: the transport reports the quota as used up on the third
    of five files. *)
Lemma quota_exceeded_on_third_file :
  let s := mounted false start in
  let e := mkError "storage quota exceeded" in
  (CustomError.SUBSCRIPTION_EXPIRED (t := errors)
     <> CustomError.SESSION_EXPIRED (t := errors)
   /\ CustomError.STORAGE_QUOTA_EXCEEDED (t := errors)
      <> CustomError.SESSION_EXPIRED (t := errors)
   /\ CustomError.STORAGE_QUOTA_EXCEEDED (t := errors)
      <> CustomError.SUBSCRIPTION_EXPIRED (t := errors)
   /\ result (uploadFiles_try (env := importEnv quotaExceeded)
                (uploadManager := manager_of quotaExceeded)
                fiveItems [album] s) = Throw e)
  /\ filter is_userFacing
       (events (uploadFiles (env := importEnv quotaExceeded)
                  (uploadManager := manager_of quotaExceeded)
                  (customError := errors) fiveItems [album] s))
     = [SetNotificationAttributes
          (mkNotification "danger" constants.STORAGE_QUOTA_EXCEEDED
             (Some (mkAction constants.RENEW_NOW showPlanSelectorModal))
             (Some DiscFullIcon))].
Proof.
  intros s e.
  assert (H21 : CustomError.SUBSCRIPTION_EXPIRED (t := errors)
                <> CustomError.SESSION_EXPIRED (t := errors))
    by discriminate.
  assert (H31 : CustomError.STORAGE_QUOTA_EXCEEDED (t := errors)
                <> CustomError.SESSION_EXPIRED (t := errors))
    by discriminate.
  assert (H32 : CustomError.STORAGE_QUOTA_EXCEEDED (t := errors)
                <> CustomError.SUBSCRIPTION_EXPIRED (t := errors))
    by discriminate.
  assert (Htry : result (uploadFiles_try (env := importEnv quotaExceeded)
                           (uploadManager := manager_of quotaExceeded)
                           fiveItems [album] s) = Throw e)
    by (vm_compute; reflexivity).
  split; [auto |].
  exact (proj1 (proj2 (proj2
           (proj1 (escalated_error_surfaced_once
                     (env := importEnv quotaExceeded)
                     (uploadManager := manager_of quotaExceeded)
                     (customError := errors)
                     fiveItems [album] s H21 H31 H32) e Htry)))
           eq_refl).
Defined.



(** The run of C7, call by call: [setLoading(false)] comes right after the
    remote sync has been asked for, before the albums are fetched. *)
Example interrupted_run :
  let r := pageStart (env := importEnv interrupted)
             (uploadManager := manager_of interrupted)
             (customError := errors) 2
             (initialState defaultSuggestion false false None None None None
                start) in
  let trip := mkCollection 100 "Trip" in
  let batch := [mkFileWithCollection ax 0 100;
                mkFileWithCollection bz 1 100] in
  events r
  = [UploadManagerInit; GetPendingUploads; SetLoading true;
     CloseCollectionSelector; CloseUploadTypeSelector; PrepareForNewUpload;
     SetUploadInProgress true; SyncWithRemote (Some true) (Some true);
     SetLoading false;
     SyncCollections; CreateAlbum (Some "Trip") [];
     SetToUploadCollection [trip];
     SetToUploadFiles FILES [Some "A/x.jpg"; Some "B/z.jpg"];
     QueueFilesForUpload batch [trip];
     SetUploadInProgress false; SyncWithRemote None None].
Proof. vm_compute. reflexivity. Qed.

(** With a file dropped and a file shared when the page starts, the shared
    one is taken first: what was dropped shows in [webFiles] at the next
    render only. *)
Example shared_before_dropped_at_mount :
  let r := pageStart (env := importEnv web) (uploadManager := manager_of web)
             (customError := errors) 2
             (initialState defaultSuggestion false false (Some [loose2])
                None None (Some [loose1]) start) in
  let selector :=
    SetCollectionSelectorAttributes
      (mkSelectorAttributes cb_uploadFilesToExistingCollection
         (UploadToSingleNewCollection None)
         constants.UPLOAD_TO_COLLECTION) in
  events r
  = [UploadManagerInit;
     SetLoading true; ResetSharedFiles; selector; SetLoading false;
     SetLoading true; selector; SetLoading false]
  /\ toUploadFiles (final r) = Some [loose1].
Proof. vm_compute. split; reflexivity. Qed.

(** C9 on a run: three loose files, the first upload ever. *)
Lemma first_album_of_loose_files :
  let env := importEnv web in
  let s := set_toUploadFiles (Some [loose1; loose2; loose3])
             (mounted true start) in
  let suggestion := mkImportSuggestion None false in
  let next := UploadToSingleNewCollection (Some "My First Album") in
  (isPendingDesktopUpload s = false
   /\ isElectron (ImportEnv := env) && uploadType_is (uploadType s) ZIPS
      = false
   /\ truthy (rootFolderName suggestion) = false
   /\ hasNestedFolders suggestion = false)
  /\ events (handleCollectionCreationAndUpload (env := env)
               (uploadManager := manager_of web) (customError := errors)
               suggestion true s)
     = [SetCollectionSelectorAttributes
          (mkSelectorAttributes cb_uploadFilesToExistingCollection next
             constants.UPLOAD_TO_COLLECTION)]
  /\ (forall s',
        runNextModal (env := env) (uploadManager := manager_of web)
          (customError := errors) next s'
        = unawaited
            (uploadFilesToNewCollections (env := env)
               (uploadManager := manager_of web) (customError := errors)
               SINGLE_COLLECTION (Some "My First Album")) s')
  /\ (forall s' n existing,
        In (CreateAlbum n existing)
           (events (runNextModal (env := env)
                      (uploadManager := manager_of web)
                      (customError := errors) next s')) ->
        n = Some "My First Album").
Proof.
  intros env s suggestion next.
  split; [repeat split; reflexivity |].
  exact (first_upload_uses_default_album_name (env := env)
           (uploadManager := manager_of web) (customError := errors)
           suggestion s eq_refl eq_refl eq_refl eq_refl).
Defined.

(** After the album creation has failed the upload-in-progress flag is
    still set: [postUploadAction] belongs to [uploadFiles], which was not
    reached. *)
Example flag_after_album_creation_failure :
  uploadInProgress
    (final (uploadFilesToNewCollections (env := importEnv albumBFails)
              (uploadManager := manager_of albumBFails)
              (customError := errors) COLLECTION_PER_FOLDER None threePicked))
  = true.
Proof. reflexivity. Qed.

(** The quota scenario of C6: two of the five items are finished, the
    other three are never dequeued. *)
Example quota_exceeded_counters :
  let r := uploadFiles (env := importEnv quotaExceeded)
             (uploadManager := manager_of quotaExceeded)
             (customError := errors) fiveItems [album]
             (mounted false start) in
  counters (world (final r)) = (2, 5)
  /\ map localID (UploadManager.remaining (manager (world (final r))))
     = [3; 4].
Proof. vm_compute. split; reflexivity. Qed.

(** The album is then asked for under that name, and the three files go
    to it. *)
Example first_album_run :
  let s := set_toUploadFiles (Some [loose1; loose2; loose3])
             (mounted true start) in
  let r := runNextModal (env := importEnv web)
             (uploadManager := manager_of web) (customError := errors)
             (UploadToSingleNewCollection (Some "My First Album")) s in
  createAlbumCalls (events r) = [Some "My First Album"]
  /\ counters (world (final r)) = (3, 3).
Proof. vm_compute. split; reflexivity. Qed.

End Runs.
